(** * awx-job-exporter: the poll, filter, aggregate, publish cycle of [main.go]

    A shallow embedding of [main.go] and a check of its specification.

    - [Go] holds the pieces of the Go runtime and standard library the
      program leans on: 64-bit [int] arithmetic, [strings.Join], slices
      with their spare capacity, number conversions.
    - [Json] models [encoding/json] decoding into the program's structs,
      driven by the struct tags of [AWXJob] and [AWXResponse].
    - [Awx] is the program: [contains], [isWhitelisted],
      [fetchAWXJobData] and the loop of [recordAWXMetrics].
    - [Derived] and [Samples] hold the vocabulary of the statements and
      the inputs of the examples.

    The network is an explicit argument: each loop iteration consumes one
    [exchange], the outcome of its HTTP request.  Strings are Go strings,
    sequences of bytes, compared byte by byte. *)

From Stdlib Require Import ZArith NArith List String Ascii Lia.
From Stdlib Require Import Floats.SpecFloat.
From stdpp Require Import base option list strings gmap fin_maps.

Open Scope Z_scope.

(** ** Runtime and library pieces *)

Module Go.

(** [int] on a 64-bit platform: arithmetic wraps around. *)
Definition min_int : Z := - 2 ^ 63.
Definition max_int : Z := 2 ^ 63 - 1.

Definition wrap_int (z : Z) : Z := (z + 2 ^ 63) mod 2 ^ 64 - 2 ^ 63.

(** [x++] on an [int]. *)
Definition incr (x : Z) : Z := wrap_int (x + 1).

(** [float32] and [float64] values, as IEEE 754 data. *)
Definition float32 : Type := spec_float.
Definition float64 : Type := spec_float.

Definition zero32 : float32 := S754_zero false.

(** The conversion [float64(count)] of an [int]: round to nearest even. *)
Definition float64_of_int (z : Z) : float64 := binary_normalize 53 1024 z 0 false.

(** [strings.Join(elems, sep)]. *)
Fixpoint Join (elems : list string) (sep : string) : string :=
  match elems with
  | [] => ""
  | [a] => a
  | a :: rest => a +:+ sep +:+ Join rest sep
  end.

(** A slice: the elements below its length, and what the backing array
    still holds between length and capacity ([spare]; positions never
    written are zero values and are left out).  Only the decoder ever
    looks at [spare]: [range] and [append] see [elems]. *)
Record slice (A : Type) : Type := Slice { elems : list A; spare : list A }.
Arguments Slice {A} _ _.
Arguments elems {A} _.
Arguments spare {A} _.

(** The nil slice, the zero value of a slice type. *)
Definition nil_slice {A : Type} : slice A := Slice [] [].

(** [time.Duration] counts nanoseconds. *)
Definition Second : Z := 1000000000.

End Go.

(** ** Decoding with [encoding/json] *)

Module Json.
Import Go.

(** A number literal.  [NumInt] is a literal with neither fraction nor
    exponent, [-?digits]; [NumDec neg m e] is any other literal, of value
    [(-1)^neg * m * 10^e]. *)
Inductive jnumber : Type :=
| NumInt (neg : bool) (n : N)
| NumDec (neg : bool) (m : N) (e : Z).

(** A JSON value as the scanner delivers it: member names and strings are
    already unquoted, members are in document order and may repeat. *)
#[warnings="-register-all"]
Inductive json : Type :=
| JNull
| JBool (b : bool)
| JNumber (n : jnumber)
| JString (s : string)
| JArray (items : list json)
| JObject (members : list (string * json)).

(** What the program can see of an [error] value. *)
Inductive error : Type :=
| ErrRequest            (* http.NewRequest refused the URL *)
| ErrTransport          (* client.Do failed: connection, timeout *)
| ErrSyntax             (* the body holds no JSON value *)
| ErrUnmarshalType.     (* a JSON value does not fit the Go type *)

Inductive result (A : Type) : Type :=
| Ok (a : A)
| Err (e : error).
Arguments Ok {A} _.
Arguments Err {A} _.

#[global] Instance result_ret : MRet result := fun _ a => Ok a.
#[global] Instance result_bind : MBind result :=
  fun _ _ f r => match r with Ok a => f a | Err e => Err e end.

(** *** Matching a member name against a field name

    The decoder looks a member name up exactly and, failing that, by its
    folded form.  Folding upper-cases ASCII letters and maps every other
    rune to the smallest rune of its case orbit: of those only U+017F
    (long s, bytes C5 BF) and U+212A (Kelvin sign, bytes E2 84 AA) land
    on ASCII letters.  The other multi-byte runes stay outside ASCII and
    never equal a field name of this program, so they are left as they
    are. *)
Definition upper (c : ascii) : ascii :=
  let n := N_of_ascii c in
  if ((97 <=? n) && (n <=? 122))%N then ascii_of_N (n - 32) else c.

Fixpoint foldName (s : string) : string :=
  match s with
  | EmptyString => EmptyString
  | String c rest =>
      match N_of_ascii c, rest with
      | 197%N, String c1 rest1 =>
          if (N_of_ascii c1 =? 191)%N then String "S" (foldName rest1)
          else String c (foldName rest)
      | 226%N, String c1 (String c2 rest2) =>
          if ((N_of_ascii c1 =? 132) && (N_of_ascii c2 =? 170))%N
          then String "K" (foldName rest2)
          else String c (foldName rest)
      | _, _ => String (upper c) (foldName rest)
      end
  end.

(** Does member name [key] select the field tagged [field]? *)
Definition selects (field key : string) : bool :=
  String.eqb key field || String.eqb (foldName key) (foldName field).

(** *** Scalars *)

(** A JSON value stored into a [string] field holding [cur]. *)
Definition decodeString (cur : string) (v : json) : result string :=
  match v with
  | JNull => Ok cur
  | JString s => Ok s
  | _ => Err ErrUnmarshalType
  end.

(** Into an [int] field: [strconv.ParseInt(literal, 10, 64)]. *)
Definition parseInt (n : jnumber) : option Z :=
  match n with
  | NumInt neg m =>
      let z := if neg then - Z.of_N m else Z.of_N m in
      if (min_int <=? z) && (z <=? max_int) then Some z else None
  | NumDec _ _ _ => None
  end.

Definition decodeInt (cur : Z) (v : json) : result Z :=
  match v with
  | JNull => Ok cur
  | JNumber n =>
      match parseInt n with Some z => Ok z | None => Err ErrUnmarshalType end
  | _ => Err ErrUnmarshalType
  end.

(** Into a [float32] field: [strconv.ParseFloat(literal, 32)], which
    rounds to nearest even and reports a range error on overflow to an
    infinity. *)
Definition round32 (neg : bool) (m : N) (e : Z) : float32 :=
  match m with
  | N0 => S754_zero neg
  | Npos p =>
      match e with
      | Zneg k => SFdiv 24 128 (S754_finite neg p 0)
                               (S754_finite false (10 ^ k)%positive 0)
      | _ => binary_normalize 24 128
               ((if neg then Zneg p else Zpos p) * 10 ^ e) 0 neg
      end
  end.

Definition parseFloat32 (n : jnumber) : option float32 :=
  let f := match n with
           | NumInt neg m => round32 neg m 0
           | NumDec neg m e => round32 neg m e
           end in
  match f with
  | S754_zero _ | S754_finite _ _ _ => Some f
  | _ => None
  end.

Definition decodeFloat32 (cur : float32) (v : json) : result float32 :=
  match v with
  | JNull => Ok cur
  | JNumber n =>
      match parseFloat32 n with Some f => Ok f | None => Err ErrUnmarshalType end
  | _ => Err ErrUnmarshalType
  end.

(** *** Slices

    A JSON array is decoded element by element into the slice the field
    already holds: element [i] is decoded into what the backing array has
    at [i] (an earlier element, spare capacity, or a zero value), the
    length is then cut to the number of items, and an empty array stores
    a fresh empty slice.  [null] stores the nil slice. *)
Section Slices.
Context {A : Type} (zero : A) (dec : A -> json -> result A).

Fixpoint decodeItems (backing : list A) (items : list json) : result (list A) :=
  match items with
  | [] => Ok []
  | v :: rest =>
      x ← dec (hd zero backing) v;
      xs ← decodeItems (tl backing) rest;
      Ok (x :: xs)
  end.

Definition decodeSlice (cur : slice A) (v : json) : result (slice A) :=
  match v with
  | JNull => Ok nil_slice
  | JArray [] => Ok (Slice [] [])
  | JArray items =>
      let backing := elems cur ++ spare cur in
      xs ← decodeItems backing items;
      Ok (Slice xs (drop (length items) backing))
  | _ => Err ErrUnmarshalType
  end.
End Slices.

(** *** Structs

    A JSON object is decoded member by member, in document order, into
    the struct value the field already holds; members that select no
    field are skipped. [null] leaves a struct as it is. *)
Section Structs.
Context {A : Type} (member : A -> string -> json -> result A).

Fixpoint decodeMembers (cur : A) (members : list (string * json)) : result A :=
  match members with
  | [] => Ok cur
  | (key, v) :: rest => cur' ← member cur key v; decodeMembers cur' rest
  end.

Definition decodeStruct (cur : A) (v : json) : result A :=
  match v with
  | JNull => Ok cur
  | JObject members => decodeMembers cur members
  | _ => Err ErrUnmarshalType
  end.
End Structs.

End Json.

(** ** The program *)

Module Awx.
Import Go Json.

(** *** Decoded records: [AWXJob], [AWXResponse]

    The two anonymous structs of [AWXJob] both have the single field
    [Name string `json:"name"`]; [Named] stands for either. *)
Record Named : Type := { Name : string }.

Record AWXJob : Type := {
  Status : string;                (* `json:"status"` *)
  Labels : slice Named;           (* `json:"summary_fields.labels"` *)
  Organization : Named;           (* `json:"summary_fields.organization"` *)
  JobId : Z;                      (* `json:"id"` *)
  Elapsed : float32               (* `json:"elapsed"` *)
}.

Record AWXResponse : Type := { Results : slice AWXJob (* `json:"results"` *) }.

(** Zero values, what [var result AWXResponse] and fresh elements hold. *)
Definition zeroNamed : Named := {| Name := "" |}.
Definition zeroJob : AWXJob :=
  {| Status := ""; Labels := nil_slice; Organization := zeroNamed;
     JobId := 0; Elapsed := zero32 |}.
Definition zeroResponse : AWXResponse := {| Results := nil_slice |}.

(** One object member stored into each struct, by its tag. *)
Definition namedMember (cur : Named) (key : string) (v : json) : result Named :=
  if selects "name" key
  then s ← decodeString (Name cur) v; Ok {| Name := s |}
  else Ok cur.

Definition decodeNamed : Named -> json -> result Named := decodeStruct namedMember.

Definition jobMember (cur : AWXJob) (key : string) (v : json) : result AWXJob :=
  if selects "status" key then
    s ← decodeString (Status cur) v;
    Ok {| Status := s; Labels := Labels cur; Organization := Organization cur;
          JobId := JobId cur; Elapsed := Elapsed cur |}
  else if selects "summary_fields.labels" key then
    ls ← decodeSlice zeroNamed decodeNamed (Labels cur) v;
    Ok {| Status := Status cur; Labels := ls; Organization := Organization cur;
          JobId := JobId cur; Elapsed := Elapsed cur |}
  else if selects "summary_fields.organization" key then
    o ← decodeNamed (Organization cur) v;
    Ok {| Status := Status cur; Labels := Labels cur; Organization := o;
          JobId := JobId cur; Elapsed := Elapsed cur |}
  else if selects "id" key then
    i ← decodeInt (JobId cur) v;
    Ok {| Status := Status cur; Labels := Labels cur; Organization := Organization cur;
          JobId := i; Elapsed := Elapsed cur |}
  else if selects "elapsed" key then
    f ← decodeFloat32 (Elapsed cur) v;
    Ok {| Status := Status cur; Labels := Labels cur; Organization := Organization cur;
          JobId := JobId cur; Elapsed := f |}
  else Ok cur.

Definition decodeJob : AWXJob -> json -> result AWXJob := decodeStruct jobMember.

Definition responseMember (cur : AWXResponse) (key : string) (v : json)
  : result AWXResponse :=
  if selects "results" key
  then rs ← decodeSlice zeroJob decodeJob (Results cur) v; Ok {| Results := rs |}
  else Ok cur.

Definition decodeResponse : AWXResponse -> json -> result AWXResponse :=
  decodeStruct responseMember.

(** *** The HTTP exchange

    What one call of [fetchAWXJobData] meets: [http.NewRequest] may refuse
    the URL, [client.Do] may fail (connection error, the 10 second timeout),
    or a response arrives with a status code and a body.  Of the body only
    the first JSON value matters to [Decode]; a body that holds none (empty,
    cut short, not JSON) is [NoValue]. *)
Inductive body : Type :=
| NoValue
| Value (v : json).

Inductive exchange : Type :=
| RequestRefused
| TransportFailed
| Responded (status : Z) (b : body).

(** [fetchAWXJobData(apiURL, username, password)], lines 77-101. *)
Definition fetchAWXJobData (x : exchange) : result AWXResponse :=
  match x with
  | RequestRefused => Err ErrRequest
  | TransportFailed => Err ErrTransport
  | Responded _ b =>
      match b with
      | NoValue => Err ErrSyntax
      | Value v => decodeResponse zeroResponse v
      end
  end.

(** *** Configuration: the package-level variables set by [loadConfig] *)
Record config : Type := {
  whitelistOrganizations : list string;
  whitelistLabels : list string;
  whitelistEnabled : bool
}.

(** [contains(slice, item)], lines 119-126. *)
Fixpoint contains (slice : list string) (item : string) : bool :=
  match slice with
  | [] => false
  | element :: rest => if String.eqb element item then true else contains rest item
  end.

(** The [for] loop of [isWhitelisted], lines 110-116. *)
Fixpoint anyLabelWhitelisted (cfg : config) (jobLabels : list string) : bool :=
  match jobLabels with
  | [] => false
  | label :: rest =>
      if contains (whitelistLabels cfg) label then true
      else anyLabelWhitelisted cfg rest
  end.

(** [isWhitelisted(organization, jobLabels)], lines 103-117. *)
Definition isWhitelisted (cfg : config) (organization : string)
  (jobLabels : list string) : bool :=
  if negb (contains (whitelistOrganizations cfg) organization) then false
  else anyLabelWhitelisted cfg jobLabels.

(** *** Aggregation: [map[string]map[string]map[string]int] *)
Abbreviation countMap := (gmap string Z).
Abbreviation statusMap := (gmap string (gmap string Z)).
Abbreviation orgMap := (gmap string (gmap string (gmap string Z))).

(** Reading [m[org][status][labels]] when all three levels exist. *)
Definition countOf (m : orgMap) (org status labels : string) : option Z :=
  sm ← m !! org; cm ← sm !! status; cm !! labels.

(** Lines 163-170: make the inner maps if absent, then [++] the count
    (a missing key reads as 0). *)
Definition bump (m : orgMap) (orgName jobStatus combinedLabels : string) : orgMap :=
  let m1 := match m !! orgName with
            | Some _ => m
            | None => <[orgName := ∅]> m
            end in
  let sm := default ∅ (m1 !! orgName) in
  let sm1 := match sm !! jobStatus with
             | Some _ => sm
             | None => <[jobStatus := ∅]> sm
             end in
  let cm := default ∅ (sm1 !! jobStatus) in
  let cm1 := <[combinedLabels := incr (default 0 (cm !! combinedLabels))]> cm in
  <[orgName := <[jobStatus := cm1]> sm1]> m1.

(** What the loop does that an observer can tell apart in time. Gauge
    writes are kept in the gauge state instead: the order in which [range]
    walks a map is not fixed. *)
Inductive event : Type :=
| EvFetch
| EvLogFetchError (e : error)
| EvLogIgnored (jobID : Z)
| EvSleep (d : Z).

(** Lines 147-151. *)
Definition labelNames (job : AWXJob) : list string := map Name (elems (Labels job)).
Definition combinedLabels (job : AWXJob) : string := Join (labelNames job) ",".

(** The body of the loop over [awxResponse.Results], lines 143-171. *)
Definition countJob (cfg : config) (st : orgMap * list event) (job : AWXJob)
  : orgMap * list event :=
  let '(m, log) := st in
  let orgName := Name (Organization job) in
  let jobID := JobId job in
  let jobLabels := labelNames job in
  let jobStatus := Status job in
  let count := (bump m orgName jobStatus (combinedLabels job), log) in
  if whitelistEnabled cfg then
    if negb (isWhitelisted cfg orgName jobLabels)
    then (m, log ++ [EvLogIgnored jobID])
    else count
  else count.

(** Lines 141-171: a fresh map, then every job in turn. *)
Definition aggregate (cfg : config) (jobs : list AWXJob) : orgMap * list event :=
  fold_left (countJob cfg) jobs (∅, []).

(** *** Publishing: the gauge vector [awxJobsTotal]

    One gauge per triple of label values; [WithLabelValues] finds or makes
    it and [Set] overwrites its value.  [WithLabelValues] panics on a label
    value that is not valid UTF-8; the strings the decoder delivers always
    are, so that check is left out. *)
Abbreviation gauges := (gmap (string * string * string) float64).

(** Lines 174-180, innermost loop first.  [map_fold] walks a map in one
    fixed order where [range] may take any; [publish_any_order] below shows
    that the order makes no difference to the gauges. *)
Definition publishLabels (org status : string) (labelMap : countMap) (g : gauges)
  : gauges :=
  map_fold (fun labels count g1 =>
              <[(org, status, labels) := float64_of_int count]> g1) g labelMap.

Definition publishStatuses (org : string) (statusMap : statusMap) (g : gauges)
  : gauges :=
  map_fold (fun status labelMap g1 => publishLabels org status labelMap g1)
           g statusMap.

Definition publish (m : orgMap) (g : gauges) : gauges :=
  map_fold (fun org statusMap g1 => publishStatuses org statusMap g1) g m.

(** One pass through the body of [for { ... }], lines 131-182. *)
Definition iteration (cfg : config) (x : exchange) (g : gauges)
  : gauges * list event :=
  match fetchAWXJobData x with
  | Err err => (g, [EvFetch; EvLogFetchError err])
  | Ok awxResponse =>
      let '(m, log) := aggregate cfg (elems (Results awxResponse)) in
      (publish m g, EvFetch :: log ++ [EvSleep (10 * Second)])
  end.

(** [recordAWXMetrics], run for as many iterations as there are exchanges. *)
Fixpoint recordAWXMetrics (cfg : config) (xs : list exchange) (g : gauges)
  : gauges * list event :=
  match xs with
  | [] => (g, [])
  | x :: rest =>
      let '(g1, t1) := iteration cfg x g in
      let '(g2, t2) := recordAWXMetrics cfg rest g1 in
      (g2, t1 ++ t2)
  end.

End Awx.

(** ** Derived notions used by the statements *)

Module Derived.
Import Go Json Awx.

(** The filter stage as one predicate: does the loop go on to count a job
    with this organization and these labels (lines 154-159)? *)
Definition isAllowed (cfg : config) (organization : string)
  (jobLabels : list string) : bool :=
  if whitelistEnabled cfg then isWhitelisted cfg organization jobLabels else true.

Definition passes (cfg : config) (job : AWXJob) : bool :=
  isAllowed cfg (Name (Organization job)) (labelNames job).

(** The aggregate key of a job. *)
Definition keyOf (job : AWXJob) : string * string * string :=
  (Name (Organization job), Status job, combinedLabels job).

(** Reading an aggregate map at a key. *)
Definition countAt (m : orgMap) (k : string * string * string) : option Z :=
  let '(org, status, labels) := k in countOf m org status labels.

(** How many jobs of a cycle pass the filter and carry a given key. *)
Definition counted (cfg : config) (k : string * string * string) (job : AWXJob) : bool :=
  passes cfg job && bool_decide (keyOf job = k).

Definition occurrences (cfg : config) (jobs : list AWXJob)
  (k : string * string * string) : nat :=
  length (List.filter (counted cfg k) jobs).

(** Setting gauges from a list of entries, one by one. *)
Definition setAll (es : list (string * string * string * Z)) (g : gauges) : gauges :=
  fold_left (fun g1 kc => <[kc.1 := float64_of_int kc.2]> g1) es g.

(** Aggregation with no filter at all. *)
Definition countAll (jobs : list AWXJob) : orgMap :=
  fold_left (fun m job =>
               bump m (Name (Organization job)) (Status job) (combinedLabels job))
            jobs ∅.

(** Does the byte [c] occur in [s]? *)
Fixpoint occurs (c : ascii) (s : string) : bool :=
  match s with
  | EmptyString => false
  | String c1 rest => Ascii.eqb c1 c || occurs c rest
  end.

(** A response document of the shape the upstream interface is documented
    to have: every job object carries [id], [status], [elapsed], an
    organization object with [name] and an array of label objects with
    [name], under the member names of the struct tags. *)
Record jobDoc : Type := {
  doc_id : Z;
  doc_status : string;
  doc_elapsed : jnumber;
  doc_organization : string;
  doc_labels : list string
}.

Definition intLiteral (z : Z) : jnumber := NumInt (z <? 0) (Z.abs_N z).

Definition renderLabel (l : string) : json := JObject [("name", JString l)].

Definition renderJob (d : jobDoc) : json :=
  JObject [ ("id", JNumber (intLiteral (doc_id d)));
            ("status", JString (doc_status d));
            ("elapsed", JNumber (doc_elapsed d));
            ("summary_fields.organization",
              JObject [("name", JString (doc_organization d))]);
            ("summary_fields.labels", JArray (map renderLabel (doc_labels d))) ].

Definition renderResponse (ds : list jobDoc) : json :=
  JObject [("results", JArray (map renderJob ds))].

(** The same shape as a relation on JSON values: the members above in any
    order, among any number of members that select no field of the struct
    being decoded, at every level. *)
Definition unknownTo (tags : list string) (key : string) : bool :=
  forallb (fun tag => negb (selects tag key)) tags.

Definition shaped (tags : list string) (fields members : list (string * json)) : Prop :=
  exists extras,
    members ≡ₚ fields ++ extras /\
    Forall (fun kv : string * json => unknownTo tags kv.1 = true) extras.

Definition namedTags : list string := ["name"].
Definition jobTags : list string :=
  ["status"; "summary_fields.labels"; "summary_fields.organization"; "id"; "elapsed"].
Definition responseTags : list string := ["results"].

Definition namedShape (name : string) (v : json) : Prop :=
  exists members,
    v = JObject members /\ shaped namedTags [("name", JString name)] members.

Definition jobShape (d : jobDoc) (v : json) : Prop :=
  exists members organization labels,
    v = JObject members /\
    namedShape (doc_organization d) organization /\
    Forall2 namedShape (doc_labels d) labels /\
    shaped jobTags
      [ ("id", JNumber (intLiteral (doc_id d)));
        ("status", JString (doc_status d));
        ("elapsed", JNumber (doc_elapsed d));
        ("summary_fields.organization", organization);
        ("summary_fields.labels", JArray labels) ]
      members.

Definition responseShape (ds : list jobDoc) (v : json) : Prop :=
  exists members jobs,
    v = JObject members /\
    Forall2 jobShape ds jobs /\
    shaped responseTags [("results", JArray jobs)] members.

(** Two members that a struct decodes the same in either order, and a
    member that a struct skips. *)
Definition commute {A : Type} (member : A -> string -> json -> result A)
  (x y : string * json) : Prop :=
  forall cur, (c ← member cur x.1 x.2; member c y.1 y.2)
            = (c ← member cur y.1 y.2; member c x.1 x.2).

Definition skipped {A : Type} (member : A -> string -> json -> result A)
  (x : string * json) : Prop :=
  forall cur, member cur x.1 x.2 = Ok cur.

(** The values of a document fit the Go types they are decoded into. *)
Definition wellTyped (d : jobDoc) : Prop :=
  min_int <= doc_id d <= max_int /\ is_Some (parseFloat32 (doc_elapsed d)).

(** The record a well-typed job document stands for. *)
Definition recordOf (d : jobDoc) : AWXJob :=
  {| Status := doc_status d;
     Labels := Slice (map (fun l => {| Name := l |}) (doc_labels d)) [];
     Organization := {| Name := doc_organization d |};
     JobId := doc_id d;
     Elapsed := default zero32 (parseFloat32 (doc_elapsed d)) |}.

(** A job record built from its visible parts, for examples. *)
Definition job (org status : string) (labels : list string) : AWXJob :=
  {| Status := status;
     Labels := Slice (map (fun l => {| Name := l |}) labels) [];
     Organization := {| Name := org |};
     JobId := 0;
     Elapsed := zero32 |}.

End Derived.

(** ** Sample inputs *)

Module Samples.
Import Go Json Awx Derived.

Definition sampleDocs : list jobDoc :=
  [ {| doc_id := 7; doc_status := "successful"; doc_elapsed := NumDec false 125 (-1);
       doc_organization := "Default"; doc_labels := ["prod"; "db"] |};
    {| doc_id := 8; doc_status := "failed"; doc_elapsed := NumInt false 3;
       doc_organization := "Ops"; doc_labels := [] |} ].

(** The same two jobs as a response body, the first with its members out
    of order and with members the structs do not know. *)
Definition sampleOrganization : list (string * json) :=
  [("id", JNumber (NumInt false 1)); ("name", JString "Default")].

Definition sampleJob : list (string * json) :=
  [ ("name", JString "deploy");
    ("summary_fields.labels", JArray [renderLabel "prod"; renderLabel "db"]);
    ("status", JString "successful");
    ("summary_fields.organization", JObject sampleOrganization);
    ("elapsed", JNumber (NumDec false 125 (-1)));
    ("id", JNumber (NumInt false 7)) ].

Definition sampleResults : list json :=
  [ JObject sampleJob;
    renderJob {| doc_id := 8; doc_status := "failed"; doc_elapsed := NumInt false 3;
                 doc_organization := "Ops"; doc_labels := [] |} ].

Definition sampleMembers : list (string * json) :=
  [ ("count", JNumber (NumInt false 2));
    ("next", JNull);
    ("results", JArray sampleResults) ].

Definition sampleBody : json := JObject sampleMembers.

Definition sampleConfig : config :=
  {| whitelistOrganizations := ["A"]; whitelistLabels := ["prod"];
     whitelistEnabled := true |}.

Definition openConfig : config :=
  {| whitelistOrganizations := ["A"]; whitelistLabels := ["prod"];
     whitelistEnabled := false |}.

Definition sampleJobs : list AWXJob :=
  [job "A" "ok" ["prod"]; job "A" "ok" ["prod"]; job "B" "failed" ["dev"]].

Definition sampleGauges : gauges :=
  <[("A", "ok", "prod") := float64_of_int 2]> ∅.

Definition labelConfig : config :=
  {| whitelistOrganizations := ["A"]; whitelistLabels := ["x"];
     whitelistEnabled := true |}.

Definition bareJob : AWXJob := job "" "" [].

End Samples.

(** ** Notions and inputs of the further properties *)

Module Further.
Import Go Json Awx Derived Samples.

(** Did the fetch of an exchange succeed? *)
Definition succeeded (x : exchange) : bool :=
  match fetchAWXJobData x with
  | Ok _ => true
  | Err _ => false
  end.

(** Kinds of events, for counting them in a trace. *)
Definition isFetch (e : event) : bool :=
  match e with EvFetch => true | _ => false end.

Definition isSleep (e : event) : bool :=
  match e with EvSleep d => Z.eqb d (10 * Second) | _ => false end.

(** The sum of the weights of the entries of a map, and with it the sum of
    all counts of an aggregate map. *)
Definition sumWith {A : Type} (w : A -> Z) (m : gmap string A) : Z :=
  map_fold (fun _ x acc => w x + acc) 0 m.

Definition total (m : orgMap) : Z := sumWith (sumWith (sumWith id)) m.

Definition isErrorLog (e : event) : bool :=
  match e with EvLogFetchError _ => true | _ => false end.

(** The key a job document is counted under. *)
Definition docKey (d : jobDoc) : string * string * string :=
  (doc_organization d, doc_status d, Join (doc_labels d) ",").

(** Inputs of the examples. *)
Definition repeatedConfig : config :=
  {| whitelistOrganizations := ["A"; "A"]; whitelistLabels := ["prod"; "prod"];
     whitelistEnabled := true |}.

Definition widerConfig : config :=
  {| whitelistOrganizations := ["B"; "A"]; whitelistLabels := ["prod"; "dev"];
     whitelistEnabled := true |}.

Definition closedConfig : config :=
  {| whitelistOrganizations := []; whitelistLabels := ["prod"];
     whitelistEnabled := true |}.

Definition errorDocument : list (string * json) :=
  [("detail", JString "Authentication credentials were not provided.")].

Definition badJob : list (string * json) :=
  [("status", JString "failed"); ("id", JString "7")].

Definition badMembers : list (string * json) :=
  [ ("count", JNumber (NumInt false 2));
    ("results", JArray [renderJob {| doc_id := 8; doc_status := "failed";
                                     doc_elapsed := NumInt false 3;
                                     doc_organization := "Ops"; doc_labels := [] |};
                        JObject badJob]) ].

Definition sampleResponse : AWXResponse :=
  {| Results := Slice (map recordOf sampleDocs) [] |}.

End Further.

(** ** Properties *)

Import Go Json Awx Derived Samples.

(** *** [int] arithmetic *)

Section IntFacts.

Lemma wrap_int_small (z : Z) : min_int <= z <= max_int -> wrap_int z = z.
Proof.
  unfold wrap_int, min_int, max_int. intros Hz.
  rewrite Z.mod_small by lia. lia.
Qed.

Lemma incr_wrap_int (z : Z) : incr (wrap_int z) = wrap_int (z + 1).
Proof.
  unfold incr, wrap_int. f_equal.
  replace ((z + 2 ^ 63) mod 2 ^ 64 - 2 ^ 63 + 1 + 2 ^ 63)
    with ((z + 2 ^ 63) mod 2 ^ 64 + 1) by lia.
  replace (z + 1 + 2 ^ 63) with ((z + 2 ^ 63) + 1) by lia.
  rewrite (Z.add_mod (z + 2 ^ 63) 1) by lia.
  rewrite (Z.add_mod ((z + 2 ^ 63) mod 2 ^ 64) 1) by lia.
  rewrite Z.mod_mod by lia. reflexivity.
Qed.

End IntFacts.

(** *** The whitelist *)

Section WhitelistFacts.
Variable cfg : config.

Lemma contains_In (slice : list string) (item : string) :
  contains slice item = true <-> In item slice.
Proof.
  induction slice as [|element rest IH]; simpl.
  - split; [discriminate | tauto].
  - destruct (String.eqb element item) eqn:E.
    + apply String.eqb_eq in E. tauto.
    + apply String.eqb_neq in E. rewrite IH. split; [tauto|].
      intros [H|H]; [congruence | exact H].
Qed.

Lemma anyLabelWhitelisted_iff (jobLabels : list string) :
  anyLabelWhitelisted cfg jobLabels = true <->
  exists label, In label jobLabels /\ In label (whitelistLabels cfg).
Proof.
  induction jobLabels as [|label rest IH]; simpl.
  - split; [discriminate | intros (l & [] & _)].
  - destruct (contains (whitelistLabels cfg) label) eqn:E.
    + apply contains_In in E. split; [|reflexivity].
      intros _. exists label. tauto.
    + rewrite IH. split.
      * intros (l & Hl & Hw). exists l. tauto.
      * intros (l & [->|Hl] & Hw).
        -- apply contains_In in Hw. congruence.
        -- exists l. tauto.
Qed.

Lemma isWhitelisted_iff (organization : string) (jobLabels : list string) :
  isWhitelisted cfg organization jobLabels = true <->
  In organization (whitelistOrganizations cfg) /\
  exists label, In label jobLabels /\ In label (whitelistLabels cfg).
Proof.
  unfold isWhitelisted.
  destruct (contains (whitelistOrganizations cfg) organization) eqn:E; simpl.
  - apply contains_In in E. rewrite anyLabelWhitelisted_iff. tauto.
  - split; [discriminate|]. intros [H _]. apply contains_In in H. congruence.
Qed.

(** The loop body counts a job exactly when [passes] says so. *)
Lemma countJob_passes (m : orgMap) (log : list event) (j : AWXJob) :
  countJob cfg (m, log) j =
  if passes cfg j
  then (bump m (Name (Organization j)) (Status j) (combinedLabels j), log)
  else (m, log ++ [EvLogIgnored (JobId j)]).
Proof.
  unfold countJob, passes, isAllowed.
  destruct (whitelistEnabled cfg); [|reflexivity].
  destruct (isWhitelisted cfg _ _); reflexivity.
Qed.

End WhitelistFacts.

(** *** The aggregate map *)

Section AggregateFacts.

Lemma countOf_bump_same (m : orgMap) (o s l : string) :
  countOf (bump m o s l) o s l = Some (incr (default 0 (countOf m o s l))).
Proof.
  unfold countOf, bump.
  destruct (m !! o) as [sm|] eqn:Ho; simpl.
  - rewrite lookup_insert_eq. simpl. rewrite Ho. simpl.
    destruct (sm !! s) as [cm|] eqn:Hs; simpl.
    + rewrite lookup_insert_eq. simpl. rewrite lookup_insert_eq.
      rewrite Hs. reflexivity.
    + rewrite !lookup_insert_eq. simpl. rewrite lookup_insert_eq.
      rewrite lookup_empty. reflexivity.
  - rewrite !lookup_insert_eq. simpl. rewrite lookup_empty. simpl.
    rewrite !lookup_insert_eq. simpl. rewrite lookup_insert_eq.
    rewrite lookup_empty. reflexivity.
Qed.

Lemma countOf_bump_other (m : orgMap) (o s l o' s' l' : string) :
  (o, s, l) <> (o', s', l') ->
  countOf (bump m o s l) o' s' l' = countOf m o' s' l'.
Proof.
  intros Hne. unfold countOf, bump.
  destruct (decide (o = o')) as [<-|Ho].
  - rewrite lookup_insert_eq. simpl.
    destruct (decide (s = s')) as [<-|Hs].
    + rewrite lookup_insert_eq. simpl.
      assert (l <> l') by congruence.
      rewrite lookup_insert_ne by done.
      destruct (m !! o) as [sm|] eqn:Hmo; simpl.
      * rewrite Hmo. simpl. destruct (sm !! s) as [cm|] eqn:Hsm; simpl.
        -- rewrite Hsm. reflexivity.
        -- rewrite lookup_insert_eq. simpl. apply lookup_empty.
      * rewrite lookup_insert_eq. simpl. rewrite lookup_empty. simpl.
        rewrite lookup_insert_eq. simpl. apply lookup_empty.
    + rewrite lookup_insert_ne by done.
      destruct (m !! o) as [sm|] eqn:Hmo; simpl.
      * rewrite Hmo. simpl. destruct (sm !! s) as [cm|] eqn:Hsm; simpl.
        -- reflexivity.
        -- rewrite lookup_insert_ne by done. reflexivity.
      * rewrite lookup_insert_eq. simpl. rewrite lookup_empty. simpl.
        rewrite lookup_insert_ne by done. rewrite lookup_empty. reflexivity.
  - rewrite lookup_insert_ne by done.
    destruct (m !! o) as [sm|] eqn:Hmo; simpl.
    + reflexivity.
    + rewrite lookup_insert_ne by done. reflexivity.
Qed.


Variable cfg : config.

Lemma aggregate_snoc (jobs : list AWXJob) (j : AWXJob) :
  aggregate cfg (jobs ++ [j]) = countJob cfg (aggregate cfg jobs) j.
Proof. unfold aggregate. rewrite fold_left_app. reflexivity. Qed.

Lemma occurrences_snoc (jobs : list AWXJob) (j : AWXJob) k :
  occurrences cfg (jobs ++ [j]) k =
  (occurrences cfg jobs k + (if counted cfg k j then 1 else 0))%nat.
Proof.
  unfold occurrences. rewrite List.filter_app, length_app. simpl.
  destruct (counted cfg k j); reflexivity.
Qed.

Lemma occurrences_le (jobs : list AWXJob) k :
  (occurrences cfg jobs k <= length jobs)%nat.
Proof. unfold occurrences. apply List.filter_length_le. Qed.

(** What the cycle's map holds under a key: nothing if no counted job has
    the key, else their number, brought into [int]. *)
Lemma countOf_aggregate (jobs : list AWXJob) (o s l : string) :
  countOf (aggregate cfg jobs).1 o s l =
  match occurrences cfg jobs (o, s, l) with
  | O => None
  | S n => Some (wrap_int (Z.of_nat (S n)))
  end.
Proof.
  induction jobs as [|j jobs IH] using rev_ind.
  - reflexivity.
  - rewrite aggregate_snoc, occurrences_snoc.
    destruct (aggregate cfg jobs) as [m log] eqn:Hagg. simpl in IH.
    rewrite countJob_passes. unfold counted.
    destruct (passes cfg j); simpl.
    + case_bool_decide as Hk.
      * unfold keyOf in Hk. injection Hk as <- <- <-.
        rewrite countOf_bump_same, IH.
        destruct (occurrences cfg jobs _) as [|n]; simpl.
        -- reflexivity.
        -- rewrite incr_wrap_int. do 2 f_equal. lia.
      * rewrite countOf_bump_other by exact Hk.
        rewrite IH, Nat.add_0_r. reflexivity.
    + rewrite IH, Nat.add_0_r. reflexivity.
Qed.

End AggregateFacts.

(** *** Publishing *)

Section PublishFacts.
Implicit Types (g : gauges) (o s l : string).

Lemma publishLabels_lookup o s (cm : countMap) g o' s' l' :
  publishLabels o s cm g !! (o', s', l') =
  if decide (o = o' /\ s = s') then
    match cm !! l' with
    | Some c => Some (float64_of_int c)
    | None => g !! (o', s', l')
    end
  else g !! (o', s', l').
Proof.
  unfold publishLabels.
  apply (map_fold_weak_ind (fun (r : gauges) (cm : countMap) =>
    r !! (o', s', l') =
    if decide (o = o' /\ s = s') then
      match cm !! l' with
      | Some c => Some (float64_of_int c)
      | None => g !! (o', s', l')
      end
    else g !! (o', s', l'))).
  - rewrite lookup_empty. destruct (decide _); reflexivity.
  - intros i x m r Hi IH.
    destruct (decide (o = o' /\ s = s')) as [[<- <-]|Hne].
    + destruct (decide (i = l')) as [<-|Hl].
      * rewrite !lookup_insert_eq. reflexivity.
      * rewrite !lookup_insert_ne by congruence. exact IH.
    + rewrite lookup_insert_ne; [exact IH|].
      intros [= -> -> ->]. apply Hne. done.
Qed.

Lemma publishStatuses_lookup o (sm : statusMap) g o' s' l' :
  publishStatuses o sm g !! (o', s', l') =
  if decide (o = o') then
    match sm !! s' ≫= (fun cm => cm !! l') with
    | Some c => Some (float64_of_int c)
    | None => g !! (o', s', l')
    end
  else g !! (o', s', l').
Proof.
  unfold publishStatuses.
  apply (map_fold_weak_ind (fun (r : gauges) (sm : statusMap) =>
    r !! (o', s', l') =
    if decide (o = o') then
      match sm !! s' ≫= (fun cm => cm !! l') with
      | Some c => Some (float64_of_int c)
      | None => g !! (o', s', l')
      end
    else g !! (o', s', l'))).
  - rewrite lookup_empty. destruct (decide _); reflexivity.
  - intros i cm m r Hi IH. rewrite publishLabels_lookup.
    destruct (decide (o = o')) as [<-|Hne].
    + destruct (decide (i = s')) as [<-|Hs].
      * rewrite lookup_insert_eq. simpl. rewrite decide_True by done.
        destruct (cm !! l'); [reflexivity|].
        rewrite IH, Hi. reflexivity.
      * rewrite lookup_insert_ne by done.
        rewrite decide_False by (intros [_ ?]; done). exact IH.
    + rewrite decide_False by (intros [? _]; done). exact IH.
Qed.

(** A gauge after publishing: the count of the map where the map has the
    key, the old value elsewhere. *)
Lemma publish_lookup (m : orgMap) g o s l :
  publish m g !! (o, s, l) =
  match countOf m o s l with
  | Some c => Some (float64_of_int c)
  | None => g !! (o, s, l)
  end.
Proof.
  unfold publish, countOf.
  apply (map_fold_weak_ind (fun (r : gauges) (m : orgMap) =>
    r !! (o, s, l) =
    match m !! o ≫= (fun sm => sm !! s ≫= (fun cm => cm !! l)) with
    | Some c => Some (float64_of_int c)
    | None => g !! (o, s, l)
    end)).
  - rewrite lookup_empty. reflexivity.
  - intros i sm m' r Hi IH. rewrite publishStatuses_lookup.
    destruct (decide (i = o)) as [->|Hne].
    + rewrite lookup_insert_eq. simpl.
      destruct (sm !! s ≫= _); [reflexivity|].
      rewrite IH, Hi. reflexivity.
    + rewrite lookup_insert_ne by done. exact IH.
Qed.

End PublishFacts.

Section PublishOrder.
Implicit Types (g : gauges) (k : string * string * string).
Implicit Types (es : list (string * string * string * Z)).

Lemma setAll_lookup es g k :
  NoDup es.*1 ->
  (forall c, In (k, c) es -> setAll es g !! k = Some (float64_of_int c)) /\
  (~ In k es.*1 -> setAll es g !! k = g !! k).
Proof.
  revert g. induction es as [|[k0 c0] es IH]; intros g Hnd; simpl.
  - split; [intros c [] | reflexivity].
  - apply NoDup_cons in Hnd as [Hk0 Hnd].
    destruct (IH (<[k0 := float64_of_int c0]> g) Hnd) as [IHin IHout].
    split.
    + intros c [[= -> ->]|Hin].
      * unfold setAll in *. simpl. rewrite IHout.
        -- apply lookup_insert_eq.
        -- intros H. apply Hk0, list_elem_of_In, H.
      * apply IHin, Hin.
    + intros Hout. unfold setAll in *. simpl. rewrite IHout by tauto.
      apply lookup_insert_ne. intros ->. tauto.
Qed.

(** The gauges after publishing do not depend on the order in which the
    three loops walk their maps: setting the entries of the map one by one,
    each once, in any order, gives the same gauges. *)
Lemma publish_any_order (m : orgMap) es g :
  NoDup es.*1 ->
  (forall k c, In (k, c) es <-> countAt m k = Some c) ->
  setAll es g = publish m g.
Proof.
  intros Hnd Hes. apply map_eq. intros [[o s] l].
  destruct (setAll_lookup es g (o, s, l) Hnd) as [Hin Hout].
  rewrite publish_lookup.
  destruct (countOf m o s l) as [c|] eqn:Hc.
  - apply Hin, Hes. exact Hc.
  - apply Hout. intros Hk. apply in_map_iff in Hk as ([k c] & Hkc & Hk).
    simpl in Hkc. subst k. apply Hes in Hk. simpl in Hk. congruence.
Qed.

Example publish_any_order_sample :
  setAll [(("B", "failed", "dev"), 1); (("A", "ok", "prod"), 2)] sampleGauges
  = publish (aggregate openConfig sampleJobs).1 sampleGauges.
Proof.
  apply publish_any_order.
  - simpl. apply (bool_decide_unpack _). vm_compute. reflexivity.
  - intros [[o s] l] c. split.
    + intros [H|[H|[]]]; injection H as ? ? ? ?; subst; vm_compute; reflexivity.
    + unfold countAt. rewrite countOf_aggregate.
      destruct (occurrences openConfig sampleJobs (o, s, l)) eqn:E; [discriminate|].
      unfold occurrences, counted, sampleJobs in E. simpl in E.
      repeat case_bool_decide;
        repeat match goal with
               | H : keyOf _ = _ |- _ => cbv in H; injection H as ? ? ?; subst
               end;
        try discriminate;
        simpl in E; injection E as ?; subst; intros Hc; injection Hc as ?; subst;
        simpl; tauto.
Qed.

End PublishOrder.

(** *** [strings.Join] with a comma *)

Section JoinFacts.

Lemma Join_cons2 (a b : string) (rest : list string) (sep : string) :
  Join (a :: b :: rest) sep = a +:+ sep +:+ Join (b :: rest) sep.
Proof. reflexivity. Qed.

(** A separator-free head can be read back off a joined string. *)
Lemma append_comma_inj (a1 a2 r1 r2 : string) :
  occurs "," a1 = false -> occurs "," a2 = false ->
  a1 +:+ "," +:+ r1 = a2 +:+ "," +:+ r2 -> a1 = a2 /\ r1 = r2.
Proof.
  revert a2. induction a1 as [|c1 a1 IH]; intros [|c2 a2]; simpl; intros H1 H2 E.
  - injection E as E. tauto.
  - injection E as <- _. simpl in H2. discriminate.
  - injection E as -> _. simpl in H1. discriminate.
  - injection E as <- E.
    apply orb_false_iff in H1 as [_ H1]. apply orb_false_iff in H2 as [_ H2].
    destruct (IH a2 H1 H2 E) as [-> ->]. tauto.
Qed.

Lemma Join_comma_inj (l1 l2 : list string) :
  length l1 = length l2 ->
  Forall (fun a => occurs "," a = false) l1 ->
  Forall (fun a => occurs "," a = false) l2 ->
  Join l1 "," = Join l2 "," -> l1 = l2.
Proof.
  revert l2. induction l1 as [|a t1 IH]; intros [|b t2] Hlen F1 F2 E;
    try discriminate; [reflexivity|].
  apply Forall_cons_1 in F1 as [Ha F1]. apply Forall_cons_1 in F2 as [Hb F2].
  destruct t1 as [|x t1], t2 as [|y t2]; try discriminate.
  - simpl in E. congruence.
  - rewrite !Join_cons2 in E.
    destruct (append_comma_inj _ _ _ _ Ha Hb E) as [-> E'].
    f_equal. apply IH; [simpl in *; lia | assumption | assumption | exact E'].
Qed.

End JoinFacts.

(** *** Decoding the members of an object *)

Section MemberOrder.
Context {A : Type} (member : A -> string -> json -> result A).
Implicit Types (ms : list (string * json)) (x y : string * json).

Lemma commute_refl x : commute member x x.
Proof. intros cur. reflexivity. Qed.

Lemma commute_skipped_r x y : skipped member y -> commute member x y.
Proof.
  intros Hy cur. rewrite Hy. simpl.
  destruct (member cur x.1 x.2) as [c|e]; simpl; [apply Hy | reflexivity].
Qed.

Lemma commute_skipped_l x y : skipped member x -> commute member x y.
Proof.
  intros Hx cur. rewrite Hx. simpl.
  destruct (member cur y.1 y.2) as [c|e]; simpl; [symmetry; apply Hx | reflexivity].
Qed.

Lemma decodeMembers_app cur ms1 ms2 :
  decodeMembers member cur (ms1 ++ ms2) =
  (c ← decodeMembers member cur ms1; decodeMembers member c ms2).
Proof.
  revert cur. induction ms1 as [|[key v] ms1 IH]; intros cur; simpl.
  - reflexivity.
  - destruct (member cur key v) as [c|e]; simpl; [apply IH | reflexivity].
Qed.

Lemma decodeMembers_skipped cur ms :
  Forall (skipped member) ms -> decodeMembers member cur ms = Ok cur.
Proof.
  induction 1 as [|[key v] ms Hx _ IH]; simpl; [reflexivity|].
  pose proof (Hx cur) as Hk. simpl in Hk. rewrite Hk. simpl. exact IH.
Qed.

(** Members that commute pairwise can come in any order. *)
Lemma decodeMembers_perm ms ms' :
  ms ≡ₚ ms' ->
  (forall x y, In x ms -> In y ms -> commute member x y) ->
  forall cur, decodeMembers member cur ms = decodeMembers member cur ms'.
Proof.
  induction 1 as [|[key v] ms ms' Hp IH|[k1 v1] [k2 v2] ms|ms ms' ms'' Hp1 IH1 Hp2 IH2];
    intros Hc cur.
  - reflexivity.
  - simpl. destruct (member cur key v) as [c|e]; simpl; [|reflexivity].
    apply IH. intros x y Hx Hy. apply Hc; right; assumption.
  - simpl.
    pose proof (Hc (k1, v1) (k2, v2)) as H12. simpl in H12.
    specialize (H12 (or_intror (or_introl eq_refl)) (or_introl eq_refl) cur).
    simpl in H12.
    destruct (member cur k1 v1) as [c1|e1], (member cur k2 v2) as [c2|e2];
      simpl in *;
      first [ rewrite H12; reflexivity | rewrite <- H12; reflexivity | congruence ].
  - rewrite IH1 by exact Hc. apply IH2.
    intros x y Hx Hy. apply Hc; eapply Permutation_in; try eassumption;
      symmetry; assumption.
Qed.

End MemberOrder.

Section ShapedMembers.
Context {A : Type} (member : A -> string -> json -> result A) (tags : list string).

(** Decoding members of a given shape comes down to decoding the fields. *)
Lemma decodeMembers_shaped (fields members : list (string * json)) (cur : A) :
  shaped tags fields members ->
  (forall key v, unknownTo tags key = true -> skipped member (key, v)) ->
  (forall x y, In x fields -> In y fields -> commute member x y) ->
  decodeMembers member cur members = decodeMembers member cur fields.
Proof.
  intros (extras & Hp & Hex) Hskip Hfields.
  assert (Forall (skipped member) extras) as Hsk.
  { eapply Forall_impl; [exact Hex|]. intros [key v] H. apply Hskip, H. }
  rewrite <- (decodeMembers_perm member (fields ++ extras) members).
  - rewrite decodeMembers_app.
    destruct (decodeMembers member cur fields) as [c|e]; simpl; [|reflexivity].
    apply decodeMembers_skipped, Hsk.
  - symmetry. exact Hp.
  - rewrite Forall_forall in Hsk.
    intros x y Hx Hy. apply in_app_or in Hx, Hy.
    destruct Hx as [Hx|Hx]; [|apply commute_skipped_l, Hsk, list_elem_of_In, Hx].
    destruct Hy as [Hy|Hy]; [|apply commute_skipped_r, Hsk, list_elem_of_In, Hy].
    apply Hfields; assumption.
Qed.

End ShapedMembers.

Section SkippedMembers.

(** No member name selects two different fields of the job struct, so the
    order in which [jobMember] tries the tags is of no account. *)
Lemma selects_folded (tag key : string) :
  selects tag key = true -> foldName key = foldName tag.
Proof.
  unfold selects. intros H. apply orb_true_iff in H as [H|H].
  - apply String.eqb_eq in H. congruence.
  - apply String.eqb_eq in H. exact H.
Qed.

Example selects_by_case_and_fold :
  selects "status" "status" = true /\
  selects "status" "STATUS" = true /\
  selects "status" (String (ascii_of_N 197) (String (ascii_of_N 191) "tatus")) = true /\
  selects "status" "state" = false /\
  selects "summary_fields.labels" "summary_fields" = false.
Proof. repeat split. Qed.

Lemma selects_unique (tag1 tag2 key : string) :
  In tag1 jobTags -> In tag2 jobTags ->
  selects tag1 key = true -> selects tag2 key = true -> tag1 = tag2.
Proof.
  intros H1 H2 S1 S2.
  apply selects_folded in S1, S2. rewrite S1 in S2. clear S1.
  unfold jobTags in H1, H2. simpl in H1, H2.
  repeat destruct H1 as [<-|H1]; try destruct H1;
    repeat destruct H2 as [<-|H2]; try destruct H2;
    first [reflexivity | discriminate].
Qed.

Lemma namedMember_skipped key v :
  unknownTo namedTags key = true -> skipped namedMember (key, v).
Proof.
  unfold unknownTo, namedTags. simpl. rewrite andb_true_r, negb_true_iff.
  intros H cur. unfold namedMember. simpl. rewrite H. reflexivity.
Qed.

Lemma responseMember_skipped key v :
  unknownTo responseTags key = true -> skipped responseMember (key, v).
Proof.
  unfold unknownTo, responseTags. simpl. rewrite andb_true_r, negb_true_iff.
  intros H cur. unfold responseMember. simpl. rewrite H. reflexivity.
Qed.

Lemma jobMember_skipped key v :
  unknownTo jobTags key = true -> skipped jobMember (key, v).
Proof.
  unfold unknownTo, jobTags. simpl. rewrite andb_true_r, !andb_true_iff, !negb_true_iff.
  intros (H1 & H2 & H3 & H4 & H5) cur. unfold jobMember. simpl.
  rewrite H1, H2, H3, H4, H5. reflexivity.
Qed.

End SkippedMembers.

Section TypeErrors.

(** Decoding a value that was read fails in one way only. *)
Lemma decodeString_error cur v e : decodeString cur v = Err e -> e = ErrUnmarshalType.
Proof. destruct v; simpl; congruence. Qed.

Lemma decodeInt_error cur v e : decodeInt cur v = Err e -> e = ErrUnmarshalType.
Proof. destruct v; simpl; try congruence. destruct (parseInt n); congruence. Qed.

Lemma decodeFloat32_error cur v e : decodeFloat32 cur v = Err e -> e = ErrUnmarshalType.
Proof. destruct v; simpl; try congruence. destruct (parseFloat32 n); congruence. Qed.

Lemma decodeStruct_error {A : Type} (member : A -> string -> json -> result A) :
  (forall cur key v e, member cur key v = Err e -> e = ErrUnmarshalType) ->
  forall cur v e, decodeStruct member cur v = Err e -> e = ErrUnmarshalType.
Proof.
  intros Hm cur v e. destruct v; simpl; try congruence.
  revert cur. induction members as [|[key v] ms IH]; intros cur; simpl; [congruence|].
  destruct (member cur key v) as [c|e'] eqn:E; simpl.
  - apply IH.
  - intros [= <-]. eapply Hm, E.
Qed.

Lemma decodeSlice_error {A : Type} (zero : A) (dec : A -> json -> result A) :
  (forall cur v e, dec cur v = Err e -> e = ErrUnmarshalType) ->
  forall cur v e, decodeSlice zero dec cur v = Err e -> e = ErrUnmarshalType.
Proof.
  intros Hd cur v e. destruct v; simpl; try congruence.
  destruct items as [|v items]; [congruence|].
  generalize (elems cur ++ spare cur) as backing. intros backing.
  generalize (drop (length (v :: items)) backing) as rest.
  generalize (v :: items) as vs. clear v items.
  intros vs rest H.
  assert (decodeItems zero dec backing vs = Err e) as H'.
  { destruct (decodeItems zero dec backing vs); simpl in H; congruence. }
  clear H. revert backing H'.
  induction vs as [|v vs IH]; intros backing; simpl; [congruence|].
  destruct (dec (hd zero backing) v) as [x|e'] eqn:E; simpl.
  - destruct (decodeItems zero dec (tl backing) vs) eqn:E'; simpl; [congruence|].
    intros [= <-]. eapply IH, E'.
  - intros [= <-]. eapply Hd, E.
Qed.

Lemma decodeNamed_error cur v e : decodeNamed cur v = Err e -> e = ErrUnmarshalType.
Proof.
  apply decodeStruct_error. clear. intros cur key v e. unfold namedMember.
  destruct (selects "name" key); [|congruence].
  destruct (decodeString (Name cur) v) eqn:E; simpl; [congruence|].
  intros [= <-]. eapply decodeString_error, E.
Qed.

End TypeErrors.

Section JobFields.

Lemma jobMember_status cur v :
  jobMember cur "status" v =
  (s ← decodeString (Status cur) v;
   Ok {| Status := s; Labels := Labels cur; Organization := Organization cur;
         JobId := JobId cur; Elapsed := Elapsed cur |}).
Proof. reflexivity. Qed.

Lemma jobMember_labels cur v :
  jobMember cur "summary_fields.labels" v =
  (ls ← decodeSlice zeroNamed decodeNamed (Labels cur) v;
   Ok {| Status := Status cur; Labels := ls; Organization := Organization cur;
         JobId := JobId cur; Elapsed := Elapsed cur |}).
Proof. reflexivity. Qed.

Lemma jobMember_organization cur v :
  jobMember cur "summary_fields.organization" v =
  (o ← decodeNamed (Organization cur) v;
   Ok {| Status := Status cur; Labels := Labels cur; Organization := o;
         JobId := JobId cur; Elapsed := Elapsed cur |}).
Proof. reflexivity. Qed.

Lemma jobMember_id cur v :
  jobMember cur "id" v =
  (i ← decodeInt (JobId cur) v;
   Ok {| Status := Status cur; Labels := Labels cur; Organization := Organization cur;
         JobId := i; Elapsed := Elapsed cur |}).
Proof. reflexivity. Qed.

Lemma jobMember_elapsed cur v :
  jobMember cur "elapsed" v =
  (f ← decodeFloat32 (Elapsed cur) v;
   Ok {| Status := Status cur; Labels := Labels cur; Organization := Organization cur;
         JobId := JobId cur; Elapsed := f |}).
Proof. reflexivity. Qed.

Ltac job_fields :=
  repeat first
    [ rewrite jobMember_status | rewrite jobMember_labels
    | rewrite jobMember_organization | rewrite jobMember_id
    | rewrite jobMember_elapsed ];
  cbn [Status Labels Organization JobId Elapsed].

Ltac job_step :=
  match goal with
  | H : ?t = _ |- context [mbind _ ?t] => rewrite H
  | |- context [mbind _ (decodeString ?a ?b)] =>
      let E := fresh in
      destruct (decodeString a b) eqn:E;
      [|pose proof (decodeString_error _ _ _ E); subst]
  | |- context [mbind _ (decodeInt ?a ?b)] =>
      let E := fresh in
      destruct (decodeInt a b) eqn:E;
      [|pose proof (decodeInt_error _ _ _ E); subst]
  | |- context [mbind _ (decodeFloat32 ?a ?b)] =>
      let E := fresh in
      destruct (decodeFloat32 a b) eqn:E;
      [|pose proof (decodeFloat32_error _ _ _ E); subst]
  | |- context [mbind _ (decodeNamed ?a ?b)] =>
      let E := fresh in
      destruct (decodeNamed a b) eqn:E;
      [|pose proof (decodeNamed_error _ _ _ E); subst]
  | |- context [mbind _ (decodeSlice ?z ?d ?a ?b)] =>
      let E := fresh in
      destruct (decodeSlice z d a b) eqn:E;
      [|pose proof (decodeSlice_error _ _ decodeNamed_error _ _ _ E); subst]
  end; cbn [mbind result_bind]; job_fields.

(** The five fields of a job are decoded independently of each other. *)
Lemma jobFields_commute (v1 v2 v3 v4 v5 : json) x y :
  let fields := [("id", v1); ("status", v2); ("elapsed", v3);
                 ("summary_fields.organization", v4);
                 ("summary_fields.labels", v5)] in
  In x fields -> In y fields -> commute jobMember x y.
Proof.
  intros fields Hx Hy cur. simpl in Hx, Hy.
  repeat destruct Hx as [<-|Hx]; try destruct Hx;
    repeat destruct Hy as [<-|Hy]; try destruct Hy;
    try reflexivity;
    cbn [fst snd]; job_fields; repeat job_step; reflexivity.
Qed.

End JobFields.

(** *** Decoding documents of the documented shape *)

Section FreshSlices.
Context {A B : Type} (zero : A) (dec : A -> json -> result A).
Context (shape : B -> json -> Prop) (expect : B -> A).

(** Decoding an array into a slice that holds nothing yet. *)
Lemma decodeItems_fresh (ds : list B) (vs : list json) :
  Forall2 shape ds vs ->
  (forall d v, In d ds -> shape d v -> dec zero v = Ok (expect d)) ->
  decodeItems zero dec [] vs = Ok (map expect ds).
Proof.
  intros Hs. induction Hs as [|d v ds0 vs0 Hdv Hrest IH]; intros H; simpl.
  - reflexivity.
  - rewrite (H d v (or_introl eq_refl) Hdv). simpl.
    rewrite IH by (intros d' v' Hin; apply H; right; exact Hin). reflexivity.
Qed.

Lemma decodeSlice_fresh (ds : list B) (vs : list json) :
  Forall2 shape ds vs ->
  (forall d v, In d ds -> shape d v -> dec zero v = Ok (expect d)) ->
  decodeSlice zero dec nil_slice (JArray vs) = Ok (Slice (map expect ds) []).
Proof.
  intros Hs H. pose proof (decodeItems_fresh ds vs Hs H) as Hitems.
  destruct Hs as [|d v ds0 vs0 Hdv Hrest]; [reflexivity|].
  unfold decodeSlice.
  change (elems nil_slice ++ spare nil_slice) with (@nil A).
  rewrite Hitems. reflexivity.
Qed.

End FreshSlices.

Section ShapeFacts.

Lemma parseInt_intLiteral (z : Z) :
  min_int <= z <= max_int -> parseInt (intLiteral z) = Some z.
Proof.
  intros Hz. unfold parseInt, intLiteral.
  assert ((if z <? 0 then - Z.of_N (Z.abs_N z) else Z.of_N (Z.abs_N z)) = z) as ->.
  { rewrite N2Z.inj_abs_N. destruct (Z.ltb_spec z 0); lia. }
  destruct (Z.leb_spec min_int z), (Z.leb_spec z max_int); simpl; try lia.
  reflexivity.
Qed.

Lemma single_commute {A : Type} (member : A -> string -> json -> result A)
  (f x y : string * json) : In x [f] -> In y [f] -> commute member x y.
Proof. intros [<-|[]] [<-|[]]. apply commute_refl. Qed.

Lemma decodeNamed_shape (name : string) (v : json) :
  namedShape name v -> decodeNamed zeroNamed v = Ok {| Name := name |}.
Proof.
  intros (members & -> & Hs). unfold decodeNamed, decodeStruct.
  rewrite (decodeMembers_shaped namedMember namedTags _ _ _ Hs
             namedMember_skipped (single_commute _ _)).
  reflexivity.
Qed.

Lemma decodeJob_shape (d : jobDoc) (v : json) :
  wellTyped d -> jobShape d v -> decodeJob zeroJob v = Ok (recordOf d).
Proof.
  intros [Hid [f Hf]] (members & organization & labels & -> & Ho & Hl & Hs).
  unfold decodeJob, decodeStruct.
  rewrite (decodeMembers_shaped jobMember jobTags _ _ _ Hs
             jobMember_skipped (jobFields_commute _ _ _ _ _)).
  cbn [decodeMembers].
  rewrite jobMember_id. unfold decodeInt. rewrite parseInt_intLiteral by exact Hid.
  cbn [mbind result_bind zeroJob Status Labels Organization JobId Elapsed].
  rewrite jobMember_status.
  cbn [decodeString mbind result_bind Status Labels Organization JobId Elapsed].
  rewrite jobMember_elapsed. unfold decodeFloat32. rewrite Hf.
  cbn [mbind result_bind Status Labels Organization JobId Elapsed].
  rewrite jobMember_organization.
  cbn [Status Labels Organization JobId Elapsed].
  rewrite (decodeNamed_shape _ _ Ho).
  cbn [mbind result_bind Status Labels Organization JobId Elapsed].
  rewrite jobMember_labels.
  cbn [Status Labels Organization JobId Elapsed].
  rewrite (decodeSlice_fresh zeroNamed decodeNamed namedShape
             (fun l => {| Name := l |}) _ _ Hl)
    by (intros l v _; apply decodeNamed_shape).
  unfold recordOf. rewrite Hf. reflexivity.
Qed.

Lemma decodeResponse_shape (ds : list jobDoc) (v : json) :
  Forall wellTyped ds -> responseShape ds v ->
  decodeResponse zeroResponse v = Ok {| Results := Slice (map recordOf ds) [] |}.
Proof.
  intros Hds (members & jobs & -> & Hjobs & Hs).
  unfold decodeResponse, decodeStruct.
  rewrite (decodeMembers_shaped responseMember responseTags _ _ _ Hs
             responseMember_skipped (single_commute _ _)).
  cbn [decodeMembers].
  change (responseMember ?cur "results" ?v)
    with (rs ← decodeSlice zeroJob decodeJob (Results cur) v; Ok {| Results := rs |}).
  cbn [Results zeroResponse].
  rewrite (decodeSlice_fresh zeroJob decodeJob jobShape recordOf _ _ Hjobs).
  - reflexivity.
  - intros d v Hd. apply decodeJob_shape.
    rewrite Forall_forall in Hds. apply Hds, list_elem_of_In, Hd.
Qed.

(** The plain rendering of a document has the shape. *)
Lemma shaped_exact (tags : list string) (fields : list (string * json)) :
  shaped tags fields fields.
Proof. exists []. rewrite app_nil_r. split; [reflexivity | constructor]. Qed.

Lemma namedShape_render (name : string) : namedShape name (renderLabel name).
Proof. eexists. split; [reflexivity | apply shaped_exact]. Qed.

Lemma jobShape_render (d : jobDoc) : jobShape d (renderJob d).
Proof.
  exists (match renderJob d with JObject ms => ms | _ => [] end),
         (renderLabel (doc_organization d)), (map renderLabel (doc_labels d)).
  split; [reflexivity|]. split; [apply namedShape_render|].
  split; [|apply shaped_exact].
  induction (doc_labels d); constructor; [apply namedShape_render | assumption].
Qed.

Lemma responseShape_render (ds : list jobDoc) : responseShape ds (renderResponse ds).
Proof.
  exists [("results", JArray (map renderJob ds))], (map renderJob ds).
  split; [reflexivity|]. split; [|apply shaped_exact].
  induction ds; constructor; [apply jobShape_render | assumption].
Qed.

End ShapeFacts.

(** *** The filter and the counts *)

Section FilterFacts.
Variable cfg : config.

Lemma aggregate_disabled (jobs : list AWXJob) :
  whitelistEnabled cfg = false -> aggregate cfg jobs = (countAll jobs, []).
Proof.
  intros Hoff. unfold aggregate, countAll.
  generalize (∅ : orgMap). induction jobs as [|j jobs IH]; intros m.
  - reflexivity.
  - simpl. rewrite <- IH. f_equal. unfold countJob. rewrite Hoff. reflexivity.
Qed.

Lemma passes_permuted (j1 j2 : AWXJob) :
  Name (Organization j1) = Name (Organization j2) ->
  labelNames j1 ≡ₚ labelNames j2 ->
  passes cfg j1 = true -> passes cfg j2 = true.
Proof.
  unfold passes, isAllowed. intros Ho Hp.
  destruct (whitelistEnabled cfg); [|reflexivity].
  rewrite !isWhitelisted_iff, Ho. intros [H (l & Hl & Hw)].
  split; [exact H|]. exists l. split; [|exact Hw].
  eapply Permutation_in; eassumption.
Qed.

(** A key is in the map exactly when some counted job has it. *)
Lemma occurrences_pos (jobs : list AWXJob) k :
  (0 < occurrences cfg jobs k)%nat ->
  exists j, In j jobs /\ passes cfg j = true /\ keyOf j = k.
Proof.
  unfold occurrences. intros Hpos.
  destruct (List.filter (counted cfg k) jobs) as [|j rest] eqn:E; [simpl in Hpos; lia|].
  assert (In j (List.filter (counted cfg k) jobs)) as Hj by (rewrite E; left; reflexivity).
  apply List.filter_In in Hj as [Hin Hc]. unfold counted in Hc.
  apply andb_true_iff in Hc as [Hp Hk]. apply bool_decide_eq_true in Hk.
  exists j. tauto.
Qed.

Lemma occurrences_In (jobs : list AWXJob) (j : AWXJob) :
  In j jobs -> passes cfg j = true -> (0 < occurrences cfg jobs (keyOf j))%nat.
Proof.
  intros Hin Hp. unfold occurrences.
  assert (In j (List.filter (counted cfg (keyOf j)) jobs)) as Hj.
  { apply List.filter_In. split; [exact Hin|]. unfold counted. rewrite Hp. simpl.
    apply bool_decide_eq_true. reflexivity. }
  destruct (List.filter _ jobs); [destruct Hj | simpl; lia].
Qed.

Lemma countAt_aggregate (jobs : list AWXJob) k :
  Z.of_nat (length jobs) <= max_int ->
  countAt (aggregate cfg jobs).1 k =
  match occurrences cfg jobs k with
  | O => None
  | S n => Some (Z.of_nat (S n))
  end.
Proof.
  intros Hlen. destruct k as [[o s] l]. unfold countAt.
  rewrite countOf_aggregate. pose proof (occurrences_le cfg jobs (o, s, l)) as Hle.
  destruct (occurrences cfg jobs (o, s, l)) as [|n]; [reflexivity|].
  rewrite wrap_int_small; [reflexivity|]. unfold min_int, max_int in *. lia.
Qed.

End FilterFacts.

(** *** Members a job object lacks *)

Section MissingMembers.

(** Case analysis on what a job member does. *)
Ltac member_cases H :=
  unfold jobMember in H;
  repeat match type of H with
         | context [if ?b then _ else _] => destruct b eqn:?; try discriminate
         end;
  repeat match type of H with
         | context [mbind _ ?r] => destruct r; simpl in H; try discriminate
         end;
  try (injection H as <-); try reflexivity.

Lemma jobMember_keeps_Status cur key v j :
  jobMember cur key v = Ok j -> selects "status" key = false -> Status j = Status cur.
Proof. intros H Hsel. unfold jobMember in H. rewrite Hsel in H. member_cases H. Qed.

Lemma jobMember_keeps_Organization cur key v j :
  jobMember cur key v = Ok j -> selects "summary_fields.organization" key = false ->
  Organization j = Organization cur.
Proof. intros H Hsel. unfold jobMember in H. rewrite Hsel in H. member_cases H. Qed.

Lemma jobMember_keeps_Labels cur key v j :
  jobMember cur key v = Ok j -> selects "summary_fields.labels" key = false ->
  Labels j = Labels cur.
Proof. intros H Hsel. unfold jobMember in H. rewrite Hsel in H. member_cases H. Qed.

(** A field that no member selects keeps the value it had. *)
Lemma decodeMembers_keeps {F : Type} (field : AWXJob -> F) (tag : string) :
  (forall cur key v j, jobMember cur key v = Ok j -> selects tag key = false ->
                       field j = field cur) ->
  forall ms cur j,
    decodeMembers jobMember cur ms = Ok j ->
    (forall key v, In (key, v) ms -> selects tag key = false) ->
    field j = field cur.
Proof.
  intros Hstep. induction ms as [|[key v] ms IH]; intros cur j H Hms; simpl in H.
  - injection H as <-. reflexivity.
  - destruct (jobMember cur key v) as [cur'|] eqn:E; simpl in H; [|discriminate].
    rewrite (IH cur' j H) by (intros; eapply Hms; right; eassumption).
    eapply Hstep; [exact E|]. eapply Hms. left. reflexivity.
Qed.

End MissingMembers.


(** *** The loop *)

Section Loop.
Variable cfg : config.
Implicit Types (g : gauges) (x : exchange) (xs : list exchange).

Lemma iteration_failed x g e :
  fetchAWXJobData x = Err e -> iteration cfg x g = (g, [EvFetch; EvLogFetchError e]).
Proof. intros H. unfold iteration. rewrite H. reflexivity. Qed.

Lemma iteration_fetched x g r :
  fetchAWXJobData x = Ok r ->
  iteration cfg x g =
  (publish (aggregate cfg (elems (Results r))).1 g,
   EvFetch :: (aggregate cfg (elems (Results r))).2 ++ [EvSleep (10 * Second)]).
Proof.
  intros H. unfold iteration. rewrite H.
  destruct (aggregate cfg (elems (Results r))). reflexivity.
Qed.

Lemma recordAWXMetrics_cons x xs g :
  recordAWXMetrics cfg (x :: xs) g =
  ((recordAWXMetrics cfg xs (iteration cfg x g).1).1,
   (iteration cfg x g).2 ++ (recordAWXMetrics cfg xs (iteration cfg x g).1).2).
Proof.
  simpl. destruct (iteration cfg x g) as [g1 t1]. simpl.
  destruct (recordAWXMetrics cfg xs g1). reflexivity.
Qed.

(** A gauge that exists survives an iteration, whatever the exchange. *)
Lemma iteration_keeps_gauges x g k :
  is_Some (g !! k) -> is_Some ((iteration cfg x g).1 !! k).
Proof.
  intros Hk. destruct (fetchAWXJobData x) as [r|e] eqn:Hx.
  - rewrite (iteration_fetched _ _ _ Hx). simpl.
    destruct k as [[o s] l]. rewrite publish_lookup.
    destruct (countOf _ o s l); [eexists; reflexivity | exact Hk].
  - rewrite (iteration_failed _ _ _ Hx). exact Hk.
Qed.

Lemma recordAWXMetrics_keeps_gauges xs g k :
  is_Some (g !! k) -> is_Some ((recordAWXMetrics cfg xs g).1 !! k).
Proof.
  revert g. induction xs as [|x xs IH]; intros g Hk.
  - exact Hk.
  - rewrite recordAWXMetrics_cons. simpl. apply IH, iteration_keeps_gauges, Hk.
Qed.

End Loop.

Section Runs.
Variable cfg : config.

(** A gauge keeps its value through a run in which no cycle's map holds
    its key. *)
Lemma recordAWXMetrics_keeps_value (xs : list exchange) (g : gauges) k :
  (forall x r, In x xs -> fetchAWXJobData x = Ok r ->
               countAt (aggregate cfg (elems (Results r))).1 k = None) ->
  (recordAWXMetrics cfg xs g).1 !! k = g !! k.
Proof.
  revert g. induction xs as [|x xs IH]; intros g Hxs; [reflexivity|].
  assert ((iteration cfg x g).1 !! k = g !! k) as Hx.
  { unfold iteration. destruct (fetchAWXJobData x) as [r|e] eqn:E; [|reflexivity].
    specialize (Hxs x r (or_introl eq_refl) E).
    destruct (aggregate cfg (elems (Results r))) as [m log]. simpl in *.
    destruct k as [[o s] l]. rewrite publish_lookup. simpl in Hxs. rewrite Hxs.
    reflexivity. }
  simpl. destruct (iteration cfg x g) as [g1 t1]. simpl in Hx.
  specialize (IH g1). destruct (recordAWXMetrics cfg xs g1) as [g2 t2]. simpl in *.
  rewrite IH; [exact Hx|]. intros x' r' Hin. apply Hxs. right. exact Hin.
Qed.

(** A run in which every fetch fails never sleeps. *)
Lemma failed_run_never_sleeps (xs : list exchange) (g : gauges) (d : Z) :
  Forall (fun x => exists e, fetchAWXJobData x = Err e) xs ->
  ~ In (EvSleep d) (recordAWXMetrics cfg xs g).2.
Proof.
  intros Hxs. revert g. induction Hxs as [|x xs [e He] _ IH]; intros g.
  - simpl. tauto.
  - rewrite recordAWXMetrics_cons, (iteration_failed cfg x g e He). simpl.
    intros [H|[H|H]]; [discriminate | discriminate | exact (IH g H)].
Qed.

End Runs.


(** ** The claims *)

(** C1, as the code has it: an iteration whose fetch fails takes the
    [continue] of line 138 and so skips the [time.Sleep] of line 182.  Two
    failed fetches in a row follow each other with no sleep in between,
    while an iteration whose fetch succeeds ends with the 10 second sleep. *)
Theorem failed_fetch_is_retried_without_sleep (cfg : config) (g : gauges) :
  (recordAWXMetrics cfg [TransportFailed; TransportFailed] g).2 =
    [EvFetch; EvLogFetchError ErrTransport; EvFetch; EvLogFetchError ErrTransport]
  /\ (recordAWXMetrics cfg [Responded 200 (Value (renderResponse []))] g).2 =
    [EvFetch; EvSleep (10 * Second)].
Proof. split; reflexivity. Qed.

(** C2: a response document of the documented shape whose values fit the
    Go types decodes, whatever the status code, the order of the members
    and the members beside them that the structs do not know, into one job
    record per job object, in order; each record's organization name and
    label names (and its status and id) are those of the nested [name]
    members. *)
Theorem fetch_decodes_documented_shape (status : Z) (ds : list jobDoc) (v : json) :
  responseShape ds v ->
  Forall wellTyped ds ->
  exists r,
    fetchAWXJobData (Responded status (Value v)) = Ok r /\
    map (fun j => Name (Organization j)) (elems (Results r)) = map doc_organization ds /\
    map labelNames (elems (Results r)) = map doc_labels ds /\
    map Status (elems (Results r)) = map doc_status ds /\
    map JobId (elems (Results r)) = map doc_id ds.
Proof.
  intros Hv Hds. eexists. split.
  - simpl. apply decodeResponse_shape; eassumption.
  - simpl. rewrite !map_map. unfold labelNames. simpl.
    repeat split; try reflexivity.
    apply map_ext. intros d. rewrite map_map. simpl. apply map_id.
Qed.

Lemma sampleDocs_wellTyped : Forall wellTyped sampleDocs.
Proof.
  repeat constructor; try (vm_compute; congruence); eexists; vm_compute; reflexivity.
Defined.

Lemma sampleBody_shape : responseShape sampleDocs sampleBody.
Proof.
  exists sampleMembers, sampleResults. split; [reflexivity|]. split.
  - constructor; [|constructor; [apply jobShape_render | constructor]].
    exists sampleJob, (JObject sampleOrganization), [renderLabel "prod"; renderLabel "db"].
    split; [reflexivity|]. split; [|split].
    + exists sampleOrganization. split; [reflexivity|].
      exists [("id", JNumber (NumInt false 1))].
      split; [apply perm_swap | repeat constructor].
    + repeat constructor; apply namedShape_render.
    + exists [("name", JString "deploy")].
      split; [unfold sampleJob; simpl; solve_Permutation | repeat constructor].
  - exists [("count", JNumber (NumInt false 2)); ("next", JNull)].
    split; [unfold sampleMembers; solve_Permutation | repeat constructor].
Defined.

Lemma fetch_decodes_documented_shape_witness :
  exists r,
    fetchAWXJobData (Responded 200 (Value sampleBody)) = Ok r /\
    map (fun j => Name (Organization j)) (elems (Results r)) = ["Default"; "Ops"] /\
    map labelNames (elems (Results r)) = [["prod"; "db"]; []] /\
    map Status (elems (Results r)) = ["successful"; "failed"] /\
    map JobId (elems (Results r)) = [7; 8].
Proof.
  exact (fetch_decodes_documented_shape 200 sampleDocs sampleBody
           sampleBody_shape sampleDocs_wellTyped).
Defined.

(** Beside C2: the member names are the struct tags taken literally.  A job
    object that nests [organization] and [labels] inside a [summary_fields]
    member offers nothing the struct knows: it decodes to an empty
    organization name and no labels. *)
Example nested_summary_fields_are_skipped :
  decodeJob zeroJob
    (JObject
       [ ("id", JNumber (NumInt false 7));
         ("status", JString "successful");
         ("summary_fields", JObject
            [ ("organization", JObject [("name", JString "Default")]);
              ("labels", JObject
                 [ ("count", JNumber (NumInt false 1));
                   ("results", JArray [renderLabel "prod"]) ]) ]) ])
  = Ok {| Status := "successful"; Labels := nil_slice; Organization := zeroNamed;
          JobId := 7; Elapsed := zero32 |}.
Proof. reflexivity. Qed.

(** C3 fails on the code: a 401 response whose body is a JSON object is a
    successful fetch with no job records. *)
Lemma non_2xx_is_no_error_counterexample :
  ~ (200 <= 401 <= 299) /\
  fetchAWXJobData
    (Responded 401 (Value (JObject [("detail", JString "Invalid username/password.")])))
  = Ok {| Results := nil_slice |}.
Proof. split; [lia | reflexivity]. Qed.

(** C3, amended: a response whose body holds no JSON value is a fetch error
    under every status code, and the status code never decides the
    outcome: a response is fetched as the same response with status 200 is. *)
Theorem fetch_ignores_status (status : Z) (b : body) :
  fetchAWXJobData (Responded status NoValue) = Err ErrSyntax /\
  fetchAWXJobData (Responded status b) = fetchAWXJobData (Responded 200 b).
Proof. split; reflexivity. Qed.

(** C4: with the whitelist enabled a job is allowed exactly when its
    organization is one of the configured organizations and one of its
    labels is one of the configured labels, both by string equality; a
    job without labels is not allowed. *)
Theorem whitelist_enabled_iff (cfg : config) (organization : string)
  (jobLabels : list string) :
  whitelistEnabled cfg = true ->
  (isAllowed cfg organization jobLabels = true <->
     In organization (whitelistOrganizations cfg) /\
     exists label, In label jobLabels /\ In label (whitelistLabels cfg)) /\
  isAllowed cfg organization jobLabels = isWhitelisted cfg organization jobLabels /\
  isAllowed cfg organization [] = false.
Proof.
  intros Hen. unfold isAllowed. rewrite Hen. split; [apply isWhitelisted_iff|].
  split; [reflexivity|].
  unfold isWhitelisted. destruct (contains _ _); reflexivity.
Qed.

Lemma whitelist_enabled_iff_witness :
  (isAllowed sampleConfig "A" ["dev"; "prod"] = true <->
     In "A" ["A"] /\ exists label, In label ["dev"; "prod"] /\ In label ["prod"]) /\
  isAllowed sampleConfig "A" ["dev"; "prod"] = isWhitelisted sampleConfig "A" ["dev"; "prod"] /\
  isAllowed sampleConfig "A" [] = false.
Proof. apply (whitelist_enabled_iff sampleConfig "A" ["dev"; "prod"]). reflexivity. Defined.

(** C5: with the whitelist disabled every organization and label list is
    allowed, whatever the allow-lists hold; no job of the cycle is logged
    as ignored, and the cycle's map is the map of all fetched records,
    each key holding the number of records that carry it. *)
Theorem whitelist_disabled_counts_all (cfg : config) (jobs : list AWXJob) :
  whitelistEnabled cfg = false ->
  (forall organization jobLabels, isAllowed cfg organization jobLabels = true) /\
  aggregate cfg jobs = (countAll jobs, []) /\
  (Z.of_nat (length jobs) <= max_int ->
   forall k, countAt (countAll jobs) k =
             match length (List.filter (fun j => bool_decide (keyOf j = k)) jobs) with
             | O => None
             | S n => Some (Z.of_nat (S n))
             end).
Proof.
  intros Hoff. split; [|split].
  - intros o ls. unfold isAllowed. rewrite Hoff. reflexivity.
  - apply aggregate_disabled, Hoff.
  - intros Hlen k.
    pose proof (countAt_aggregate cfg jobs k Hlen) as H.
    rewrite (aggregate_disabled cfg jobs Hoff) in H. simpl in H. rewrite H.
    unfold occurrences.
    assert (List.filter (counted cfg k) jobs
            = List.filter (fun j => bool_decide (keyOf j = k)) jobs) as ->;
      [|reflexivity].
    apply List.filter_ext. intros j. unfold counted, passes, isAllowed.
    rewrite Hoff. reflexivity.
Qed.

Lemma whitelist_disabled_counts_all_witness :
  (forall organization jobLabels, isAllowed openConfig organization jobLabels = true) /\
  aggregate openConfig sampleJobs = (countAll sampleJobs, []) /\
  (Z.of_nat (length sampleJobs) <= max_int ->
   forall k, countAt (countAll sampleJobs) k =
             match length (List.filter (fun j => bool_decide (keyOf j = k)) sampleJobs) with
             | O => None
             | S n => Some (Z.of_nat (S n))
             end).
Proof. apply (whitelist_disabled_counts_all openConfig sampleJobs). reflexivity. Defined.

(** C6: an iteration whose fetch returns an error leaves every gauge as it
    was and does nothing but log the error; in a run, the gauges are the
    same as if that exchange had never taken place. *)
Theorem failed_fetch_leaves_gauges (cfg : config) (x : exchange) (e : error)
  (g : gauges) (xs : list exchange) :
  fetchAWXJobData x = Err e ->
  (iteration cfg x g).1 = g /\
  (iteration cfg x g).2 = [EvFetch; EvLogFetchError e] /\
  (recordAWXMetrics cfg (x :: xs) g).1 = (recordAWXMetrics cfg xs g).1.
Proof.
  intros Hx. rewrite recordAWXMetrics_cons, (iteration_failed cfg x g e Hx).
  repeat split.
Qed.

Lemma failed_fetch_leaves_gauges_witness :
  (iteration sampleConfig (Responded 200 NoValue) sampleGauges).1 = sampleGauges /\
  (iteration sampleConfig (Responded 200 NoValue) sampleGauges).2
    = [EvFetch; EvLogFetchError ErrSyntax] /\
  (recordAWXMetrics sampleConfig [Responded 200 NoValue; TransportFailed] sampleGauges).1
    = (recordAWXMetrics sampleConfig [TransportFailed] sampleGauges).1.
Proof.
  apply (failed_fetch_leaves_gauges sampleConfig (Responded 200 NoValue) ErrSyntax
           sampleGauges [TransportFailed]).
  reflexivity.
Defined.

(** C7 fails on the code when a label name holds a comma: two jobs with
    the labels ["a"; "a,a"] and ["a,a"; "a"] join to the same string and
    land on one key with count 2. *)
Lemma label_order_counterexample :
  let j1 := job "A" "ok" ["a"; "a,a"] in
  let j2 := job "A" "ok" ["a,a"; "a"] in
  Name (Organization j1) = Name (Organization j2) /\ Status j1 = Status j2 /\
  labelNames j1 ≡ₚ labelNames j2 /\ labelNames j1 <> labelNames j2 /\
  keyOf j1 = keyOf j2 /\
  countAt (aggregate openConfig [j1; j2]).1 (keyOf j1) = Some 2.
Proof.
  intros j1 j2. split; [reflexivity|]. split; [reflexivity|].
  split; [apply perm_swap|]. split; [discriminate|].
  split; [reflexivity | vm_compute; reflexivity].
Qed.

(** C7, amended: two allowed jobs that agree on organization and status and
    list the same comma-free label names in different orders are counted
    under two distinct keys, each with count 1, and the cycle's map of the
    pair holds no other key; the label part of a key is the job's label
    names joined with "," in the order of the response. *)
Theorem label_order_distinct_keys (cfg : config) (j1 j2 : AWXJob) :
  Name (Organization j1) = Name (Organization j2) ->
  Status j1 = Status j2 ->
  labelNames j1 ≡ₚ labelNames j2 ->
  labelNames j1 <> labelNames j2 ->
  Forall (fun a => occurs "," a = false) (labelNames j1) ->
  passes cfg j1 = true ->
  let m := (aggregate cfg [j1; j2]).1 in
  keyOf j1 <> keyOf j2 /\
  countAt m (keyOf j1) = Some 1 /\
  countAt m (keyOf j2) = Some 1 /\
  (forall k, is_Some (countAt m k) -> k = keyOf j1 \/ k = keyOf j2) /\
  keyOf j1 = (Name (Organization j1), Status j1, Join (labelNames j1) ",") /\
  keyOf j2 = (Name (Organization j2), Status j2, Join (labelNames j2) ",").
Proof.
  intros Ho Hs Hperm Hne Hfree Hp1 m.
  assert (passes cfg j2 = true) as Hp2 by (eapply passes_permuted; eassumption).
  assert (keyOf j1 <> keyOf j2) as Hk.
  { unfold keyOf, combinedLabels. intros [= _ _ E]. apply Hne.
    apply Join_comma_inj; [apply Permutation_length, Hperm | exact Hfree | | exact E].
    eapply Permutation_Forall; eassumption. }
  assert (Z.of_nat (length [j1; j2]) <= max_int) as Hlen by (vm_compute; discriminate).
  assert (forall k, occurrences cfg [j1; j2] k =
            ((if bool_decide (keyOf j1 = k) then 1 else 0) +
             (if bool_decide (keyOf j2 = k) then 1 else 0))%nat) as Hocc.
  { intros k. unfold occurrences, counted. simpl. rewrite Hp1, Hp2. simpl.
    repeat case_bool_decide; reflexivity. }
  subst m. split; [exact Hk|]. split; [|split; [|split]].
  - rewrite countAt_aggregate by exact Hlen. rewrite Hocc.
    rewrite bool_decide_eq_true_2 by reflexivity.
    rewrite bool_decide_eq_false_2 by congruence. reflexivity.
  - rewrite countAt_aggregate by exact Hlen. rewrite Hocc.
    rewrite bool_decide_eq_false_2 by exact Hk.
    rewrite bool_decide_eq_true_2 by reflexivity. reflexivity.
  - intros k. rewrite countAt_aggregate by exact Hlen. rewrite Hocc.
    repeat case_bool_decide; simpl; auto. intros [? [=]].
  - split; reflexivity.
Qed.

Lemma label_order_distinct_keys_witness :
  let j1 := job "A" "ok" ["x"; "y"] in
  let j2 := job "A" "ok" ["y"; "x"] in
  let m := (aggregate labelConfig [j1; j2]).1 in
  ("A", "ok", "x,y") <> ("A", "ok", "y,x") /\
  countAt m ("A", "ok", "x,y") = Some 1 /\
  countAt m ("A", "ok", "y,x") = Some 1.
Proof.
  intros j1 j2 m.
  destruct (label_order_distinct_keys labelConfig j1 j2) as (H1 & H2 & H3 & _).
  - reflexivity.
  - reflexivity.
  - apply perm_swap.
  - discriminate.
  - repeat constructor.
  - reflexivity.
  - split; [exact H1|]. split; [exact H2 | exact H3].
Defined.

(** C8: publishing a map overwrites the gauges of the keys the map holds
    with their counts, whatever they held, and leaves every other gauge as
    it is; a gauge that exists is never removed, neither by publishing nor
    by any number of further iterations of the loop, and it keeps its value
    through every run in which no cycle's map holds its key. *)
Theorem publish_keeps_absent_keys (cfg : config) (m : orgMap) (g : gauges)
  (k : string * string * string) (v : float64) (xs : list exchange) :
  g !! k = Some v ->
  (countAt m k = None -> publish m g !! k = Some v) /\
  (forall c, countAt m k = Some c -> publish m g !! k = Some (float64_of_int c)) /\
  (forall k', countAt m k' = None -> publish m g !! k' = g !! k') /\
  is_Some (publish m g !! k) /\
  is_Some ((recordAWXMetrics cfg xs g).1 !! k) /\
  ((forall x r, In x xs -> fetchAWXJobData x = Ok r ->
                countAt (aggregate cfg (elems (Results r))).1 k = None) ->
   (recordAWXMetrics cfg xs g).1 !! k = Some v).
Proof.
  intros Hv. split; [|split; [|split; [|split; [|split]]]].
  - destruct k as [[o s] l]. unfold countAt. rewrite publish_lookup.
    intros ->. exact Hv.
  - destruct k as [[o s] l]. unfold countAt. rewrite publish_lookup.
    intros c ->. reflexivity.
  - intros [[o s] l]. unfold countAt. rewrite publish_lookup. intros ->. reflexivity.
  - destruct k as [[o s] l]. rewrite publish_lookup.
    destruct (countOf m o s l); [eexists; reflexivity | rewrite Hv; eexists; reflexivity].
  - apply recordAWXMetrics_keeps_gauges. rewrite Hv. eexists; reflexivity.
  - intros Hxs. rewrite recordAWXMetrics_keeps_value by exact Hxs. exact Hv.
Qed.

Lemma publish_keeps_absent_keys_witness :
  let m := (aggregate openConfig [job "B" "failed" ["dev"]]).1 in
  countAt m ("A", "ok", "prod") = None /\
  publish m sampleGauges !! ("A", "ok", "prod") = Some (float64_of_int 2) /\
  (recordAWXMetrics openConfig [TransportFailed; Responded 200 (Value sampleBody)]
     sampleGauges).1 !! ("A", "ok", "prod") = Some (float64_of_int 2).
Proof.
  intros m.
  destruct (publish_keeps_absent_keys openConfig m sampleGauges ("A", "ok", "prod")
              (float64_of_int 2)
              [TransportFailed; Responded 200 (Value sampleBody)])
    as (H & _ & _ & _ & _ & Hrun).
  - reflexivity.
  - split; [reflexivity|]. split; [apply H; reflexivity|].
    apply Hrun. intros x r [<-|[<-|[]]]; [discriminate|].
    intros [= <-]. vm_compute. reflexivity.
Defined.

(** C9: every key of a cycle's map holds a count of at least 1, namely the
    number of jobs of that cycle that passed the filter and have the key,
    so at least one such job exists; the map of a cycle is built from the
    empty map and from nothing but the cycle's own job records. *)
Theorem aggregate_keys_are_witnessed (cfg : config) (jobs : list AWXJob)
  (k : string * string * string) (c : Z) :
  Z.of_nat (length jobs) <= max_int ->
  countAt (aggregate cfg jobs).1 k = Some c ->
  1 <= c /\
  c = Z.of_nat (occurrences cfg jobs k) /\
  (exists j, In j jobs /\ passes cfg j = true /\ keyOf j = k) /\
  (aggregate cfg []).1 = ∅.
Proof.
  intros Hlen Hc. rewrite countAt_aggregate in Hc by exact Hlen.
  destruct (occurrences cfg jobs k) as [|n] eqn:Hocc; [discriminate|].
  injection Hc as <-. split; [lia|]. split; [reflexivity|]. split; [|reflexivity].
  apply occurrences_pos. rewrite Hocc. lia.
Qed.

Lemma aggregate_keys_are_witnessed_witness :
  1 <= 2 /\
  2 = Z.of_nat (occurrences sampleConfig sampleJobs ("A", "ok", "prod")) /\
  (exists j, In j sampleJobs /\ passes sampleConfig j = true
             /\ keyOf j = ("A", "ok", "prod")) /\
  (aggregate sampleConfig []).1 = ∅.
Proof.
  apply (aggregate_keys_are_witnessed sampleConfig sampleJobs ("A", "ok", "prod") 2).
  - vm_compute. discriminate.
  - vm_compute. reflexivity.
Defined.

(** C10: a counted job is published under its own key whatever strings the
    key is made of.  A job without labels has the empty string as its
    combined labels; a job object with no status member decodes to the
    status "" and one with no organization member to the organization name
    "", and each such job, once it passes the filter, is counted under the
    key with that empty string and published to the gauge of that key. *)
Theorem empty_components_are_aggregated (cfg : config) (jobs : list AWXJob)
  (j : AWXJob) (g : gauges) (members : list (string * json)) :
  In j jobs -> passes cfg j = true -> Z.of_nat (length jobs) <= max_int ->
  (elems (Labels j) = [] -> combinedLabels j = "") /\
  (decodeJob zeroJob (JObject members) = Ok j ->
   (forall key v, In (key, v) members -> selects "status" key = false) ->
   Status j = "") /\
  (decodeJob zeroJob (JObject members) = Ok j ->
   (forall key v, In (key, v) members ->
                  selects "summary_fields.organization" key = false) ->
   Name (Organization j) = "") /\
  (decodeJob zeroJob (JObject members) = Ok j ->
   (forall key v, In (key, v) members -> selects "summary_fields.labels" key = false) ->
   combinedLabels j = "") /\
  exists c, 1 <= c /\
    countOf (aggregate cfg jobs).1 (Name (Organization j)) (Status j) (combinedLabels j)
      = Some c /\
    publish (aggregate cfg jobs).1 g
      !! (Name (Organization j), Status j, combinedLabels j) = Some (float64_of_int c).
Proof.
  intros Hin Hp Hlen. split; [|split; [|split; [|split]]].
  - intros Hl. unfold combinedLabels, labelNames. rewrite Hl. reflexivity.
  - intros Hdec Hms.
    apply (decodeMembers_keeps Status "status" jobMember_keeps_Status _ _ _ Hdec Hms).
  - intros Hdec Hms.
    rewrite (decodeMembers_keeps Organization "summary_fields.organization"
               jobMember_keeps_Organization _ _ _ Hdec Hms).
    reflexivity.
  - intros Hdec Hms. unfold combinedLabels, labelNames.
    rewrite (decodeMembers_keeps Labels "summary_fields.labels"
               jobMember_keeps_Labels _ _ _ Hdec Hms).
    reflexivity.
  - pose proof (countAt_aggregate cfg jobs (keyOf j) Hlen) as Hc.
    pose proof (occurrences_In cfg jobs j Hin Hp) as Hpos.
    destruct (occurrences cfg jobs (keyOf j)) as [|n]; [lia|].
    exists (Z.of_nat (S n)). split; [lia|]. unfold keyOf, countAt in Hc.
    split; [exact Hc|]. rewrite publish_lookup, Hc. reflexivity.
Qed.

Lemma empty_components_are_aggregated_witness :
  decodeJob zeroJob (JObject [("id", JNumber (NumInt false 0))]) = Ok bareJob /\
  combinedLabels bareJob = "" /\ Status bareJob = "" /\
  Name (Organization bareJob) = "" /\
  exists c, 1 <= c /\
    countOf (aggregate openConfig [bareJob]).1 "" "" "" = Some c /\
    publish (aggregate openConfig [bareJob]).1 sampleGauges !! ("", "", "")
      = Some (float64_of_int c).
Proof.
  destruct (empty_components_are_aggregated openConfig [bareJob] bareJob sampleGauges
              [("id", JNumber (NumInt false 0))]) as (H1 & H2 & H3 & _ & H5).
  - left. reflexivity.
  - reflexivity.
  - vm_compute. discriminate.
  - split; [reflexivity|]. split; [apply H1; reflexivity|].
    split; [apply H2; [reflexivity | intros key v [[= <- <-]|[]]; reflexivity]|].
    split; [apply H3; [reflexivity | intros key v [[= <- <-]|[]]; reflexivity]|].
    exact H5.
Defined.

(** ** Further properties of the code *)

Import Further.

Section MoreWhitelist.

Lemma bool_eq_iff (a b : bool) : (a = true <-> b = true) -> a = b.
Proof.
  destruct a, b; intros [H1 H2]; try reflexivity.
  - symmetry. apply H1. reflexivity.
  - apply H2. reflexivity.
Qed.

(** X1: [isWhitelisted] looks at the configured lists and at the job's
    labels as sets: neither the order of the entries nor their repetition
    changes its answer. *)
Theorem isWhitelisted_reads_sets (cfg cfg' : config) (organization : string)
  (jobLabels jobLabels' : list string) :
  (forall o, In o (whitelistOrganizations cfg) <-> In o (whitelistOrganizations cfg')) ->
  (forall l, In l (whitelistLabels cfg) <-> In l (whitelistLabels cfg')) ->
  (forall l, In l jobLabels <-> In l jobLabels') ->
  isWhitelisted cfg organization jobLabels = isWhitelisted cfg' organization jobLabels'.
Proof.
  intros Ho Hl Hj. apply bool_eq_iff. rewrite !isWhitelisted_iff, Ho.
  split; intros [H (l & H1 & H2)]; (split; [exact H|]); exists l.
  - rewrite <- Hj, <- Hl. tauto.
  - rewrite Hj, Hl. tauto.
Qed.

Lemma isWhitelisted_reads_sets_witness :
  isWhitelisted sampleConfig "A" ["dev"; "prod"]
  = isWhitelisted repeatedConfig "A" ["prod"; "dev"; "prod"].
Proof.
  apply (isWhitelisted_reads_sets sampleConfig repeatedConfig "A"
           ["dev"; "prod"] ["prod"; "dev"; "prod"]);
    intros x; simpl; tauto.
Defined.

(** X2: widening the whitelist never turns an accepted job away: a job
    that [isWhitelisted] accepts is accepted under every configuration
    whose lists contain those of the first. *)
Theorem isWhitelisted_monotone (cfg cfg' : config) (organization : string)
  (jobLabels : list string) :
  incl (whitelistOrganizations cfg) (whitelistOrganizations cfg') ->
  incl (whitelistLabels cfg) (whitelistLabels cfg') ->
  isWhitelisted cfg organization jobLabels = true ->
  isWhitelisted cfg' organization jobLabels = true.
Proof.
  intros Ho Hl. rewrite !isWhitelisted_iff. intros [H (l & H1 & H2)].
  split; [apply Ho, H|]. exists l. split; [exact H1 | apply Hl, H2].
Qed.

Lemma isWhitelisted_monotone_witness :
  isWhitelisted sampleConfig "A" ["dev"; "prod"] = true /\
  isWhitelisted widerConfig "A" ["dev"; "prod"] = true.
Proof.
  split; [reflexivity|].
  apply (isWhitelisted_monotone sampleConfig widerConfig "A" ["dev"; "prod"]).
  - intros x. simpl. tauto.
  - intros x. simpl. tauto.
  - reflexivity.
Defined.

End MoreWhitelist.

Section MoreAggregate.
Variable cfg : config.

(** What a cycle logs: the ids of the jobs that fail the filter, in the
    order of the response. *)
Lemma aggregate_log (jobs : list AWXJob) :
  (aggregate cfg jobs).2 =
  map (fun j => EvLogIgnored (JobId j)) (List.filter (fun j => negb (passes cfg j)) jobs).
Proof.
  induction jobs as [|j jobs IH] using rev_ind; [reflexivity|].
  rewrite aggregate_snoc, List.filter_app, map_app.
  destruct (aggregate cfg jobs) as [m log]. simpl in IH. subst log.
  rewrite countJob_passes. simpl.
  destruct (passes cfg j); simpl; [rewrite app_nil_r|]; reflexivity.
Qed.

Lemma filter_split_length {A : Type} (p : A -> bool) (l : list A) :
  (length (List.filter p l) + length (List.filter (fun x => negb (p x)) l))%nat
  = length l.
Proof.
  induction l as [|x l IH]; simpl; [reflexivity|].
  destruct (p x); simpl; lia.
Qed.

End MoreAggregate.

(** X3: what a cycle logs.  The log of a cycle holds one "ignoring" entry
    for each job that fails the filter, with that job's id, in the order of
    the response, and nothing else; the jobs logged and the jobs counted
    add up to the jobs fetched. *)
Theorem ignored_jobs_are_logged (cfg : config) (jobs : list AWXJob) :
  (aggregate cfg jobs).2 =
    map (fun j => EvLogIgnored (JobId j))
        (List.filter (fun j => negb (passes cfg j)) jobs) /\
  (length (List.filter (passes cfg) jobs) + length (aggregate cfg jobs).2)%nat
    = length jobs.
Proof.
  split; [apply aggregate_log|].
  rewrite aggregate_log, length_map. apply filter_split_length.
Qed.

(** X4: an enabled whitelist with no organization, or with no label, lets
    no job through: every job of the cycle is logged as ignored, the
    cycle's map is empty, and publishing it changes no gauge. *)
Theorem empty_whitelist_drops_all (cfg : config) (jobs : list AWXJob) (g : gauges) :
  whitelistEnabled cfg = true ->
  whitelistOrganizations cfg = [] \/ whitelistLabels cfg = [] ->
  (forall organization jobLabels, isWhitelisted cfg organization jobLabels = false) /\
  aggregate cfg jobs = (∅, map (fun j => EvLogIgnored (JobId j)) jobs) /\
  publish (aggregate cfg jobs).1 g = g.
Proof.
  intros Hen Hempty.
  assert (forall o ls, isWhitelisted cfg o ls = false) as Hno.
  { intros o ls. destruct (isWhitelisted cfg o ls) eqn:E; [|reflexivity].
    apply isWhitelisted_iff in E as [Ho (l & _ & Hl)].
    destruct Hempty as [H|H]; rewrite H in *; contradiction. }
  assert (aggregate cfg jobs = (∅, map (fun j => EvLogIgnored (JobId j)) jobs)) as Hagg.
  { induction jobs as [|j jobs IH] using rev_ind; [reflexivity|].
    rewrite aggregate_snoc, IH, map_app. unfold countJob.
    rewrite Hen, Hno. reflexivity. }
  split; [exact Hno|]. split; [exact Hagg|]. rewrite Hagg. reflexivity.
Qed.

Lemma empty_whitelist_drops_all_witness :
  aggregate closedConfig sampleJobs
    = (∅, [EvLogIgnored 0; EvLogIgnored 0; EvLogIgnored 0]) /\
  publish (aggregate closedConfig sampleJobs).1 sampleGauges = sampleGauges.
Proof.
  destruct (empty_whitelist_drops_all closedConfig sampleJobs sampleGauges)
    as (_ & H1 & H2).
  - reflexivity.
  - left. reflexivity.
  - split; [exact H1 | exact H2].
Defined.

Section Sums.
Context {A : Type} (w : A -> Z).
Implicit Types (m : gmap string A).

Lemma sumWith_empty : sumWith w ∅ = 0.
Proof. unfold sumWith. apply map_fold_empty. Qed.

Lemma sumWith_insert_fresh m k x :
  m !! k = None -> sumWith w (<[k := x]> m) = w x + sumWith w m.
Proof.
  intros Hk. unfold sumWith. rewrite map_fold_insert_L; [reflexivity | | exact Hk].
  intros. lia.
Qed.

Lemma sumWith_delete m k y :
  m !! k = Some y -> sumWith w m = w y + sumWith w (delete k m).
Proof.
  intros Hk. rewrite <- (insert_delete_id m k y Hk) at 1.
  apply sumWith_insert_fresh, lookup_delete_eq.
Qed.

(** Storing under a key replaces the weight that was there. *)
Lemma sumWith_insert m k x :
  sumWith w (<[k := x]> m) = sumWith w m + w x - from_option w 0 (m !! k).
Proof.
  destruct (m !! k) as [y|] eqn:Hk; simpl.
  - rewrite <- insert_delete_eq, sumWith_insert_fresh by apply lookup_delete_eq.
    rewrite (sumWith_delete m k y Hk). lia.
  - rewrite sumWith_insert_fresh by exact Hk. lia.
Qed.

End Sums.

Section Totals.

Lemma total_bump (m : orgMap) (o s l : string) :
  total (bump m o s l) =
  total m + incr (default 0 (countOf m o s l)) - default 0 (countOf m o s l).
Proof.
  unfold total, bump, countOf.
  destruct (m !! o) as [sm|] eqn:Ho; simpl.
  - rewrite Ho. simpl. rewrite sumWith_insert, Ho. simpl.
    destruct (sm !! s) as [cm|] eqn:Hs; simpl.
    + rewrite Hs. simpl. rewrite sumWith_insert, Hs. simpl.
      rewrite sumWith_insert. unfold id.
      destruct (cm !! l); simpl; lia.
    + rewrite lookup_insert_eq. simpl. rewrite insert_insert_eq.
      rewrite sumWith_insert, Hs. simpl.
      rewrite sumWith_insert, lookup_empty, sumWith_empty. simpl. unfold id.
      generalize (incr 0). intros z. lia.
  - rewrite lookup_insert_eq. simpl. rewrite lookup_empty. simpl.
    rewrite lookup_insert_eq. simpl. rewrite !insert_insert_eq.
    rewrite sumWith_insert, Ho. simpl.
    rewrite sumWith_insert, lookup_empty, sumWith_empty. simpl.
    rewrite sumWith_insert, !lookup_empty, sumWith_empty. simpl. unfold id.
    generalize (incr 0). intros z. lia.
Qed.

Variable cfg : config.

Lemma passing_snoc (jobs : list AWXJob) (j : AWXJob) :
  length (List.filter (passes cfg) (jobs ++ [j])) =
  (length (List.filter (passes cfg) jobs) + (if passes cfg j then 1 else 0))%nat.
Proof.
  rewrite List.filter_app, length_app. simpl. destruct (passes cfg j); reflexivity.
Qed.

Lemma total_aggregate (jobs : list AWXJob) :
  Z.of_nat (length jobs) <= max_int ->
  total (aggregate cfg jobs).1 = Z.of_nat (length (List.filter (passes cfg) jobs)).
Proof.
  induction jobs as [|j jobs IH] using rev_ind; intros Hlen.
  - reflexivity.
  - rewrite length_app in Hlen. simpl in Hlen.
    assert (Z.of_nat (length jobs) <= max_int) as Hlen' by lia.
    specialize (IH Hlen').
    rewrite aggregate_snoc, passing_snoc.
    pose proof (countOf_aggregate cfg jobs (Name (Organization j)) (Status j)
                  (combinedLabels j)) as Hc.
    pose proof (occurrences_le cfg jobs
                  (Name (Organization j), Status j, combinedLabels j)) as Hle.
    destruct (aggregate cfg jobs) as [m log]. rewrite countJob_passes.
    simpl in IH, Hc. destruct (passes cfg j); simpl; [|lia].
    rewrite total_bump, Hc, IH.
    destruct (occurrences cfg jobs _) as [|n]; simpl.
    + unfold incr. rewrite wrap_int_small by (unfold min_int, max_int; lia). lia.
    + rewrite incr_wrap_int.
      rewrite !wrap_int_small by (unfold min_int, max_int in *; lia). lia.
Qed.

End Totals.

(** X5: no job is lost and none is counted twice: the counts of a cycle's
    map add up to the number of jobs of the cycle that pass the filter, and
    with the jobs logged as ignored to the number of jobs fetched. *)
Theorem counts_add_up (cfg : config) (jobs : list AWXJob) :
  Z.of_nat (length jobs) <= max_int ->
  total (aggregate cfg jobs).1 = Z.of_nat (length (List.filter (passes cfg) jobs)) /\
  total (aggregate cfg jobs).1 + Z.of_nat (length (aggregate cfg jobs).2)
    = Z.of_nat (length jobs).
Proof.
  intros Hlen. pose proof (total_aggregate cfg jobs Hlen) as Ht.
  split; [exact Ht|]. rewrite Ht, aggregate_log, length_map.
  pose proof (filter_split_length (passes cfg) jobs). lia.
Qed.

Lemma counts_add_up_witness :
  total (aggregate sampleConfig sampleJobs).1 = 2 /\
  total (aggregate sampleConfig sampleJobs).1
    + Z.of_nat (length (aggregate sampleConfig sampleJobs).2) = 3.
Proof.
  apply (counts_add_up sampleConfig sampleJobs). vm_compute. discriminate.
Defined.

Section MorePublish.
Implicit Types (m : orgMap) (g : gauges).

(** Maps that hold the same counts publish the same gauges. *)
Lemma publish_ext m m' g :
  (forall k, countAt m k = countAt m' k) -> publish m g = publish m' g.
Proof.
  intros H. apply map_eq. intros [[o s] l]. rewrite !publish_lookup.
  specialize (H (o, s, l)). simpl in H. rewrite H. reflexivity.
Qed.

Lemma publish_twice m g : publish m (publish m g) = publish m g.
Proof.
  apply map_eq. intros [[o s] l]. rewrite !publish_lookup.
  destruct (countOf m o s l); reflexivity.
Qed.

End MorePublish.

Section MoreCounts.
Variable cfg : config.

Lemma occurrences_perm (jobs jobs' : list AWXJob) k :
  jobs ≡ₚ jobs' -> occurrences cfg jobs k = occurrences cfg jobs' k.
Proof.
  unfold occurrences. intros Hp.
  induction Hp as [|j l l' _ IH|j1 j2 l|l l' l'' _ IH1 _ IH2]; simpl.
  - reflexivity.
  - destruct (counted cfg k j); simpl; congruence.
  - destruct (counted cfg k j1), (counted cfg k j2); reflexivity.
  - congruence.
Qed.

End MoreCounts.

(** X6: the outcome of a cycle does not depend on the order in which the
    response lists its jobs: two cycles over the same jobs in different
    orders hold the same count under every key and publish the same
    gauges. *)
Theorem job_order_is_irrelevant (cfg : config) (jobs jobs' : list AWXJob)
  (g : gauges) :
  jobs ≡ₚ jobs' ->
  (forall k, countAt (aggregate cfg jobs).1 k = countAt (aggregate cfg jobs').1 k) /\
  publish (aggregate cfg jobs).1 g = publish (aggregate cfg jobs').1 g.
Proof.
  intros Hp.
  assert (forall k, countAt (aggregate cfg jobs).1 k
                    = countAt (aggregate cfg jobs').1 k) as H.
  { intros [[o s] l]. unfold countAt. rewrite !countOf_aggregate.
    rewrite (occurrences_perm cfg jobs jobs' _ Hp). reflexivity. }
  split; [exact H | apply publish_ext, H].
Qed.

Lemma job_order_is_irrelevant_witness :
  (forall k, countAt (aggregate sampleConfig sampleJobs).1 k
             = countAt (aggregate sampleConfig (rev sampleJobs)).1 k) /\
  publish (aggregate sampleConfig sampleJobs).1 sampleGauges
  = publish (aggregate sampleConfig (rev sampleJobs)).1 sampleGauges.
Proof.
  apply (job_order_is_irrelevant sampleConfig sampleJobs (rev sampleJobs) sampleGauges).
  apply Permutation_rev.
Defined.

(** X7: publishing is idempotent, and so is a whole iteration on the
    gauges: meeting the same exchange a second time, whether its fetch
    fails or succeeds, leaves the gauges as the first time left them. *)
Theorem repeated_cycle_changes_nothing (cfg : config) (m : orgMap) (x : exchange)
  (g : gauges) :
  publish m (publish m g) = publish m g /\
  (iteration cfg x (iteration cfg x g).1).1 = (iteration cfg x g).1 /\
  (recordAWXMetrics cfg [x; x] g).1 = (recordAWXMetrics cfg [x] g).1.
Proof.
  assert ((iteration cfg x (iteration cfg x g).1).1 = (iteration cfg x g).1) as Hit.
  { destruct (fetchAWXJobData x) as [r|e] eqn:Hx.
    - rewrite !(iteration_fetched cfg x _ r Hx). simpl. apply publish_twice.
    - rewrite !(iteration_failed cfg x _ e Hx). reflexivity. }
  split; [apply publish_twice|]. split; [exact Hit|].
  rewrite !recordAWXMetrics_cons. simpl. exact Hit.
Qed.

(** X8: of two maps published one after the other, the one published
    last decides the gauge of every key it holds; two maps that share no
    key can be published in either order. *)
Theorem publish_order_of_maps (m1 m2 : orgMap) (g : gauges) :
  (forall k, countAt m1 k = None \/ countAt m2 k = None) ->
  publish m1 (publish m2 g) = publish m2 (publish m1 g) /\
  (forall m k c, countAt m1 k = Some c ->
                 publish m1 (publish m g) !! k = Some (float64_of_int c)).
Proof.
  intros Hd. split.
  - apply map_eq. intros [[o s] l]. rewrite !publish_lookup.
    destruct (Hd (o, s, l)) as [H|H]; simpl in H; rewrite H;
      destruct (countOf _ o s l); reflexivity.
  - intros m [[o s] l] c H. simpl in H. rewrite publish_lookup, H. reflexivity.
Qed.

Lemma publish_order_of_maps_witness :
  let m1 := (aggregate openConfig [job "A" "ok" ["prod"]]).1 in
  let m2 := (aggregate openConfig [job "B" "failed" ["dev"]]).1 in
  publish m1 (publish m2 sampleGauges) = publish m2 (publish m1 sampleGauges).
Proof.
  intros m1 m2.
  apply (publish_order_of_maps m1 m2 sampleGauges).
  intros [[o s] l]. unfold countAt, m1, m2. rewrite !countOf_aggregate.
  unfold occurrences, counted. simpl.
  repeat case_bool_decide; simpl; try tauto.
  match goal with
  | H1 : keyOf _ = _, H2 : keyOf _ = _ |- _ => rewrite <- H2 in H1; discriminate H1
  end.
Defined.

(** X9: a cycle from fetch to gauges.  After an iteration whose fetch
    returned the jobs [jobs], the gauge of a key holds the number of those
    jobs that pass the filter and have the key, if there is any, and what
    it held before otherwise. *)
Theorem iteration_sets_gauges (cfg : config) (x : exchange) (r : AWXResponse)
  (g : gauges) (k : string * string * string) :
  fetchAWXJobData x = Ok r ->
  Z.of_nat (length (elems (Results r))) <= max_int ->
  (iteration cfg x g).1 !! k =
  match occurrences cfg (elems (Results r)) k with
  | O => g !! k
  | S n => Some (float64_of_int (Z.of_nat (S n)))
  end.
Proof.
  intros Hx Hlen. rewrite (iteration_fetched cfg x g r Hx). simpl.
  pose proof (countAt_aggregate cfg (elems (Results r)) k Hlen) as Hc.
  destruct k as [[o s] l]. rewrite publish_lookup. simpl in Hc. rewrite Hc.
  destruct (occurrences cfg _ _); reflexivity.
Qed.

Lemma iteration_sets_gauges_witness :
  (iteration openConfig (Responded 200 (Value sampleBody)) sampleGauges).1
    !! ("Default", "successful", "prod,db") = Some (float64_of_int 1) /\
  (iteration openConfig (Responded 200 (Value sampleBody)) sampleGauges).1
    !! ("A", "ok", "prod") = Some (float64_of_int 2).
Proof.
  split.
  - apply (iteration_sets_gauges openConfig (Responded 200 (Value sampleBody))
             sampleResponse sampleGauges ("Default", "successful", "prod,db")).
    + reflexivity.
    + vm_compute. discriminate.
  - apply (iteration_sets_gauges openConfig (Responded 200 (Value sampleBody))
             sampleResponse sampleGauges ("A", "ok", "prod")).
    + reflexivity.
    + vm_compute. discriminate.
Defined.

Section MoreTraces.
Variable cfg : config.
Implicit Types (g : gauges) (x : exchange) (xs : list exchange).

Lemma filter_ignored (p : event -> bool) (jobs : list AWXJob) :
  (forall i, p (EvLogIgnored i) = false) ->
  List.filter p (aggregate cfg jobs).2 = [].
Proof.
  intros Hp. rewrite aggregate_log.
  induction (List.filter _ jobs) as [|j l IH]; simpl; [reflexivity|].
  rewrite Hp. exact IH.
Qed.

Lemma iteration_events x g :
  List.filter isFetch (iteration cfg x g).2 = [EvFetch] /\
  List.filter isSleep (iteration cfg x g).2
    = (if succeeded x then [EvSleep (10 * Second)] else []) /\
  length (List.filter isErrorLog (iteration cfg x g).2)
    = (if succeeded x then 0 else 1)%nat.
Proof.
  unfold succeeded. destruct (fetchAWXJobData x) as [r|e] eqn:Hx.
  - rewrite (iteration_fetched cfg x g r Hx). simpl.
    rewrite !List.filter_app, !filter_ignored by reflexivity. repeat split.
  - rewrite (iteration_failed cfg x g e Hx). repeat split.
Qed.

Lemma recordAWXMetrics_app xs ys g :
  recordAWXMetrics cfg (xs ++ ys) g =
  ((recordAWXMetrics cfg ys (recordAWXMetrics cfg xs g).1).1,
   (recordAWXMetrics cfg xs g).2
     ++ (recordAWXMetrics cfg ys (recordAWXMetrics cfg xs g).1).2).
Proof.
  revert g. induction xs as [|x xs IH]; intros g.
  - simpl. destruct (recordAWXMetrics cfg ys g). reflexivity.
  - rewrite <- app_comm_cons, !recordAWXMetrics_cons, IH. simpl.
    rewrite app_assoc. reflexivity.
Qed.

End MoreTraces.

(** X10: every iteration issues exactly one fetch, sleeps the 10 seconds
    exactly when its fetch succeeded, and logs a fetch error exactly when
    it failed: in a run over any exchanges the trace holds as many fetches
    as exchanges, as many 10-second sleeps as successful fetches and as
    many error logs as failed ones. *)
Theorem run_trace_counts (cfg : config) (xs : list exchange) (g : gauges) :
  let trace := (recordAWXMetrics cfg xs g).2 in
  length (List.filter isFetch trace) = length xs /\
  length (List.filter isSleep trace) = length (List.filter succeeded xs) /\
  (length (List.filter isErrorLog trace) + length (List.filter succeeded xs))%nat
    = length xs.
Proof.
  revert g. induction xs as [|x xs IH]; intros g; [repeat split|].
  cbv zeta in *. rewrite recordAWXMetrics_cons. simpl.
  rewrite !List.filter_app, !length_app.
  destruct (iteration_events cfg x g) as (Hf & Hs & He).
  destruct (IH (iteration cfg x g).1) as (IHf & IHs & IHe).
  rewrite Hf, Hs, He, IHf, IHs.
  destruct (succeeded x); simpl; repeat split; lia.
Qed.

(** X11: runs compose, and failed fetches leave no mark on the gauges: the
    gauges after a run over [xs ++ ys] are those of the run over [ys]
    started from the gauges after [xs], and they are the gauges of the run
    over the successful exchanges alone. *)
Theorem gauges_of_a_run (cfg : config) (xs ys : list exchange) (g : gauges) :
  (recordAWXMetrics cfg (xs ++ ys) g).1
    = (recordAWXMetrics cfg ys (recordAWXMetrics cfg xs g).1).1 /\
  (recordAWXMetrics cfg xs g).1
    = (recordAWXMetrics cfg (List.filter succeeded xs) g).1.
Proof.
  split; [rewrite recordAWXMetrics_app; reflexivity|].
  revert g. induction xs as [|x xs IH]; intros g; [reflexivity|].
  simpl List.filter. unfold succeeded at 1.
  destruct (fetchAWXJobData x) as [r|e] eqn:Hx.
  - rewrite !recordAWXMetrics_cons. simpl. apply IH.
  - rewrite recordAWXMetrics_cons, (iteration_failed cfg x g e Hx). simpl. apply IH.
Qed.

Section MoreFetch.

Lemma publish_empty (g : gauges) : publish ∅ g = g.
Proof. unfold publish. apply map_fold_empty. Qed.

Lemma responseMember_no_jobs (key : string) (v : json) :
  (selects "results" key = true -> v = JNull \/ v = JArray []) ->
  responseMember zeroResponse key v = Ok zeroResponse.
Proof.
  intros H. unfold responseMember. destruct (selects "results" key); [|reflexivity].
  destruct (H eq_refl) as [-> | ->]; reflexivity.
Qed.

Lemma decodeResponse_no_jobs (members : list (string * json)) :
  (forall key v, In (key, v) members -> selects "results" key = true ->
                 v = JNull \/ v = JArray []) ->
  decodeResponse zeroResponse (JObject members) = Ok zeroResponse.
Proof.
  unfold decodeResponse, decodeStruct.
  induction members as [|[key v] members IH]; intros H; simpl; [reflexivity|].
  rewrite responseMember_no_jobs by (apply H; left; reflexivity). simpl.
  apply IH. intros key' v' Hin. apply H. right. exact Hin.
Qed.

Lemma jobMember_error cur key v e :
  jobMember cur key v = Err e -> e = ErrUnmarshalType.
Proof.
  unfold jobMember. intros H.
  repeat match type of H with
         | context [if ?b then _ else _] => destruct b
         end;
    try discriminate;
    match type of H with
    | context [mbind _ ?r] => destruct r as [a|e'] eqn:E; simpl in H
    end;
    try discriminate; injection H as <-.
  - eapply decodeString_error, E.
  - eapply (decodeSlice_error _ _ decodeNamed_error), E.
  - eapply decodeNamed_error, E.
  - eapply decodeInt_error, E.
  - eapply decodeFloat32_error, E.
Qed.

Lemma decodeJob_error cur v e : decodeJob cur v = Err e -> e = ErrUnmarshalType.
Proof. apply decodeStruct_error, jobMember_error. Qed.

(** A member that cannot be stored fails the object, wherever it stands. *)
Lemma decodeMembers_job_fails (members : list (string * json)) (key : string)
  (v : json) :
  In (key, v) members ->
  (forall cur, jobMember cur key v = Err ErrUnmarshalType) ->
  forall cur, decodeMembers jobMember cur members = Err ErrUnmarshalType.
Proof.
  intros Hin Hbad. induction members as [|[key' v'] members IH]; intros cur;
    [destruct Hin|].
  simpl. destruct Hin as [[= -> ->]|Hin].
  - rewrite Hbad. reflexivity.
  - destruct (jobMember cur key' v') as [c|e] eqn:E; simpl.
    + apply IH, Hin.
    + apply jobMember_error in E. subst e. reflexivity.
Qed.

(** An item that cannot be decoded fails the array. *)
Lemma decodeItems_fails (items : list json) (v : json) :
  In v items ->
  (forall cur, decodeJob cur v = Err ErrUnmarshalType) ->
  forall backing, decodeItems zeroJob decodeJob backing items = Err ErrUnmarshalType.
Proof.
  intros Hin Hbad. induction items as [|v' items IH]; intros backing;
    [destruct Hin|].
  simpl. destruct Hin as [->|Hin].
  - rewrite Hbad. reflexivity.
  - destruct (decodeJob (hd zeroJob backing) v') as [c|e] eqn:E; simpl.
    + rewrite (IH Hin). reflexivity.
    + apply decodeJob_error in E. subst e. reflexivity.
Qed.

End MoreFetch.

(** X12: a response that carries no job is a successful fetch, not an
    error.  An object body in which every member that selects [results] is
    [null] or the empty array (so also an object with no such member: an
    error document, say) decodes, under any status, to no job records: the
    iteration logs nothing, changes no gauge and sleeps as usual. *)
Theorem fetch_without_jobs (cfg : config) (status : Z)
  (members : list (string * json)) (g : gauges) :
  (forall key v, In (key, v) members -> selects "results" key = true ->
                 v = JNull \/ v = JArray []) ->
  let x := Responded status (Value (JObject members)) in
  fetchAWXJobData x = Ok zeroResponse /\
  iteration cfg x g = (g, [EvFetch; EvSleep (10 * Second)]).
Proof.
  intros H x.
  assert (fetchAWXJobData x = Ok zeroResponse) as Hx
    by (apply decodeResponse_no_jobs, H).
  split; [exact Hx|].
  rewrite (iteration_fetched cfg x g zeroResponse Hx). simpl.
  rewrite publish_empty. reflexivity.
Qed.

Lemma fetch_without_jobs_witness :
  fetchAWXJobData (Responded 401 (Value (JObject errorDocument))) = Ok zeroResponse /\
  iteration sampleConfig (Responded 401 (Value (JObject errorDocument))) sampleGauges
    = (sampleGauges, [EvFetch; EvSleep (10 * Second)]).
Proof.
  apply (fetch_without_jobs sampleConfig 401 errorDocument sampleGauges).
  intros key v [H|[]]. injection H as <- <-. intros Hsel. vm_compute in Hsel.
  discriminate Hsel.
Defined.

(** X13: one job that does not fit the record type fails the whole fetch.
    If a job object of the [results] array has an [id] member that is
    neither [null] nor a number that reads as an [int] (a string, say, or
    1.5, or 2^63), the fetch returns an error whatever the other jobs and
    members are, and the iteration publishes none of the jobs of that
    response. *)
Theorem ill_typed_job_fails_the_fetch (cfg : config) (status : Z)
  (members jobMembers : list (string * json)) (items : list json)
  (v : json) (g : gauges) :
  shaped responseTags [("results", JArray items)] members ->
  In (JObject jobMembers) items ->
  In ("id", v) jobMembers ->
  v <> JNull -> (forall n, v = JNumber n -> parseInt n = None) ->
  let x := Responded status (Value (JObject members)) in
  fetchAWXJobData x = Err ErrUnmarshalType /\
  (iteration cfg x g).1 = g.
Proof.
  intros Hs Hitem Hid Hnull Hnum x.
  assert (forall cur, jobMember cur "id" v = Err ErrUnmarshalType) as Hbad.
  { intros cur. rewrite jobMember_id.
    destruct v; try reflexivity; [contradiction|].
    simpl. rewrite (Hnum n eq_refl). reflexivity. }
  assert (forall cur, decodeJob cur (JObject jobMembers) = Err ErrUnmarshalType)
    as Hjob.
  { intros cur. unfold decodeJob, decodeStruct.
    eapply decodeMembers_job_fails; eassumption. }
  assert (fetchAWXJobData x = Err ErrUnmarshalType) as Hx.
  { simpl. unfold decodeResponse, decodeStruct.
    rewrite (decodeMembers_shaped responseMember responseTags _ _ _ Hs
               responseMember_skipped (single_commute _ _)).
    cbn [decodeMembers].
    change (responseMember ?cur "results" ?w)
      with (rs ← decodeSlice zeroJob decodeJob (Results cur) w;
            Ok {| Results := rs |}).
    destruct items as [|i items]; [destruct Hitem|].
    unfold decodeSlice.
    rewrite (decodeItems_fails (i :: items) _ Hitem Hjob). reflexivity. }
  split; [exact Hx|]. rewrite (iteration_failed cfg x g _ Hx). reflexivity.
Qed.

Lemma ill_typed_job_fails_the_fetch_witness :
  fetchAWXJobData (Responded 200 (Value (JObject badMembers))) = Err ErrUnmarshalType /\
  (iteration sampleConfig (Responded 200 (Value (JObject badMembers))) sampleGauges).1
    = sampleGauges.
Proof.
  apply (ill_typed_job_fails_the_fetch sampleConfig 200 badMembers badJob
           [renderJob {| doc_id := 8; doc_status := "failed";
                         doc_elapsed := NumInt false 3;
                         doc_organization := "Ops"; doc_labels := [] |};
            JObject badJob]
           (JString "7") sampleGauges).
  - exists [("count", JNumber (NumInt false 2))].
    split; [apply perm_swap | repeat constructor].
  - right. left. reflexivity.
  - right. left. reflexivity.
  - discriminate.
  - intros n Hn. discriminate Hn.
Defined.

Section MapLevels.

Lemma bump_org (m : orgMap) (o s l o' : string) :
  is_Some (bump m o s l !! o') <-> o = o' \/ is_Some (m !! o').
Proof.
  unfold bump. destruct (decide (o = o')) as [<-|Hne].
  - rewrite lookup_insert_eq. split; [tauto | intros _; eexists; reflexivity].
  - rewrite lookup_insert_ne by exact Hne.
    destruct (m !! o) eqn:Ho; [|rewrite lookup_insert_ne by exact Hne]; tauto.
Qed.

Lemma bump_status (m : orgMap) (o s l o' s' : string) :
  is_Some (bump m o s l !! o' ≫= (fun sm => sm !! s')) <->
  (o = o' /\ s = s') \/ is_Some (m !! o' ≫= (fun sm => sm !! s')).
Proof.
  unfold bump. destruct (decide (o = o')) as [<-|Hne].
  - rewrite lookup_insert_eq. simpl.
    destruct (decide (s = s')) as [<-|Hs].
    + rewrite lookup_insert_eq. split; [tauto | intros _; eexists; reflexivity].
    + rewrite lookup_insert_ne by exact Hs.
      destruct (m !! o) as [sm|] eqn:Ho; simpl.
      * rewrite Ho. simpl. destruct (sm !! s) eqn:Hsm; simpl;
          [|rewrite lookup_insert_ne by exact Hs]; tauto.
      * rewrite lookup_insert_eq. simpl. rewrite lookup_empty. simpl.
        rewrite lookup_insert_ne, lookup_empty by exact Hs.
        split; [intros [? [=]] | intros [[_ ?]|[? [=]]]; contradiction].
  - rewrite lookup_insert_ne by exact Hne.
    destruct (m !! o) eqn:Ho; [|rewrite lookup_insert_ne by exact Hne];
      split; try tauto; intros [[? _]|?]; tauto.
Qed.

End MapLevels.

(** X14: the nested map holds nothing but what counted jobs put there.  An
    organization is a key of the outer map exactly when some job of the
    cycle that passes the filter has it, a status is a key under an
    organization exactly when such a job has both, and under every such
    pair there is a count: the publishing loops never meet an empty inner
    map. *)
Theorem map_levels_come_from_jobs (cfg : config) (jobs : list AWXJob)
  (org status : string) :
  let m := (aggregate cfg jobs).1 in
  (is_Some (m !! org) <->
     exists j, In j jobs /\ passes cfg j = true /\ Name (Organization j) = org) /\
  (is_Some (m !! org ≫= (fun sm => sm !! status)) <->
     exists j, In j jobs /\ passes cfg j = true /\
               Name (Organization j) = org /\ Status j = status) /\
  (is_Some (m !! org ≫= (fun sm => sm !! status)) ->
     exists labels c, countOf m org status labels = Some c).
Proof.
  cbv zeta.
  assert ((is_Some ((aggregate cfg jobs).1 !! org) <->
             exists j, In j jobs /\ passes cfg j = true /\
                       Name (Organization j) = org) /\
          (is_Some ((aggregate cfg jobs).1 !! org ≫= (fun sm => sm !! status)) <->
             exists j, In j jobs /\ passes cfg j = true /\
                       Name (Organization j) = org /\ Status j = status)) as [H1 H2].
  { induction jobs as [|j jobs [IH1 IH2]] using rev_ind.
    - simpl. rewrite lookup_empty. simpl.
      split; (split; [intros [? [=]] | intros (? & [] & _)]).
    - rewrite aggregate_snoc. destruct (aggregate cfg jobs) as [m log].
      rewrite countJob_passes. simpl in IH1, IH2.
      destruct (passes cfg j) eqn:Hp; simpl.
      + rewrite bump_org, bump_status, IH1, IH2. split; split.
        * intros [<-|(j' & Hin & ?)].
          -- exists j. rewrite in_app_iff. simpl. tauto.
          -- exists j'. rewrite in_app_iff. tauto.
        * intros (j' & Hin & Hp' & Ho). apply in_app_iff in Hin as [Hin|[<-|[]]].
          -- right. exists j'. tauto.
          -- left. exact Ho.
        * intros [[<- <-]|(j' & Hin & ?)].
          -- exists j. rewrite in_app_iff. simpl. tauto.
          -- exists j'. rewrite in_app_iff. tauto.
        * intros (j' & Hin & Hp' & Ho & Hs).
          apply in_app_iff in Hin as [Hin|[<-|[]]].
          -- right. exists j'. tauto.
          -- left. tauto.
      + rewrite IH1, IH2. split; split.
        * intros (j' & Hin & ?). exists j'. rewrite in_app_iff. tauto.
        * intros (j' & Hin & Hp' & Ho). apply in_app_iff in Hin as [Hin|[<-|[]]].
          -- exists j'. tauto.
          -- congruence.
        * intros (j' & Hin & ?). exists j'. rewrite in_app_iff. tauto.
        * intros (j' & Hin & Hp' & Ho). apply in_app_iff in Hin as [Hin|[<-|[]]].
          -- exists j'. tauto.
          -- congruence. }
  split; [exact H1|]. split; [exact H2|].
  intros Hs. apply H2 in Hs as (j & Hin & Hp & <- & <-).
  exists (combinedLabels j). rewrite countOf_aggregate.
  pose proof (occurrences_In cfg jobs j Hin Hp) as Hpos. unfold keyOf in Hpos.
  destruct (occurrences cfg jobs _); [lia | eexists; reflexivity].
Qed.

Section Documents.

Lemma keyOf_recordOf (d : jobDoc) : keyOf (recordOf d) = docKey d.
Proof.
  unfold keyOf, docKey, combinedLabels, labelNames, recordOf. simpl.
  rewrite map_map. simpl. rewrite map_id. reflexivity.
Qed.

Lemma filter_map_length {A B : Type} (f : A -> B) (p : B -> bool) (l : list A) :
  length (List.filter p (map f l)) = length (List.filter (fun a => p (f a)) l).
Proof.
  induction l as [|a l IH]; simpl; [reflexivity|].
  destruct (p (f a)); simpl; congruence.
Qed.

End Documents.

(** X15: from the wire to the gauges.  With the whitelist disabled, after
    an iteration that met a response of the documented shape, the gauge of
    a triple (organization, status, labels joined with ",") holds the number
    of job objects of the response with that triple, if there is one, and
    its earlier value otherwise. *)
Theorem document_to_gauges (cfg : config) (status : Z) (ds : list jobDoc)
  (v : json) (g : gauges) (k : string * string * string) :
  whitelistEnabled cfg = false ->
  responseShape ds v -> Forall wellTyped ds ->
  Z.of_nat (length ds) <= max_int ->
  (iteration cfg (Responded status (Value v)) g).1 !! k =
  match length (List.filter (fun d => bool_decide (docKey d = k)) ds) with
  | O => g !! k
  | S n => Some (float64_of_int (Z.of_nat (S n)))
  end.
Proof.
  intros Hoff Hv Hds Hlen.
  assert (fetchAWXJobData (Responded status (Value v))
          = Ok {| Results := Slice (map recordOf ds) [] |}) as Hx
    by (apply decodeResponse_shape; assumption).
  rewrite (iteration_fetched cfg _ g _ Hx). simpl.
  assert (Z.of_nat (length (map recordOf ds)) <= max_int) as Hlen'
    by (rewrite length_map; exact Hlen).
  pose proof (countAt_aggregate cfg (map recordOf ds) k Hlen') as Hc.
  assert (occurrences cfg (map recordOf ds) k
          = length (List.filter (fun d => bool_decide (docKey d = k)) ds)) as Hocc.
  { unfold occurrences. rewrite filter_map_length. f_equal.
    apply List.filter_ext. intros d. unfold counted, passes, isAllowed.
    rewrite Hoff, keyOf_recordOf. reflexivity. }
  rewrite Hocc in Hc. destruct k as [[o s] l]. rewrite publish_lookup.
  simpl in Hc. rewrite Hc. destruct (length (List.filter _ ds)); reflexivity.
Qed.

Lemma document_to_gauges_witness :
  (iteration openConfig (Responded 200 (Value sampleBody)) sampleGauges).1
    !! ("Ops", "failed", "") = Some (float64_of_int 1).
Proof.
  apply (document_to_gauges openConfig 200 sampleDocs sampleBody sampleGauges
           ("Ops", "failed", "")).
  - reflexivity.
  - apply sampleBody_shape.
  - apply sampleDocs_wellTyped.
  - vm_compute. discriminate.
Defined.

Section Pipeline.
Variable cfg : config.

Lemma fold_countJob (jobs : list AWXJob) (m : orgMap) (log : list event) :
  (fold_left (countJob cfg) jobs (m, log)).1 =
  fold_left (fun m1 j => bump m1 (Name (Organization j)) (Status j) (combinedLabels j))
            (List.filter (passes cfg) jobs) m.
Proof.
  revert m log. induction jobs as [|j jobs IH]; intros m log; [reflexivity|].
  cbn [fold_left List.filter]. rewrite countJob_passes.
  destruct (passes cfg j); cbn [fold_left]; apply IH.
Qed.

Lemma occurrences_app (l1 l2 : list AWXJob) k :
  occurrences cfg (l1 ++ l2) k = (occurrences cfg l1 k + occurrences cfg l2 k)%nat.
Proof. unfold occurrences. rewrite List.filter_app, length_app. reflexivity. Qed.

End Pipeline.

(** X16: the loop filters and counts in one pass, and the result is that of
    filtering first and counting afterwards: the map of a cycle is the map
    that counting without any filter builds from the jobs that pass. *)
Theorem filter_then_count (cfg : config) (jobs : list AWXJob) :
  (aggregate cfg jobs).1 = countAll (List.filter (passes cfg) jobs).
Proof. unfold aggregate, countAll. apply fold_countJob. Qed.

(** X17: counts add up over a split of the jobs: under every key the count
    of a cycle over [jobs1 ++ jobs2] is the sum of the counts of a cycle
    over [jobs1] and of one over [jobs2], an absent key counting as 0. *)
Theorem counts_of_concatenation (cfg : config) (jobs1 jobs2 : list AWXJob)
  (k : string * string * string) :
  Z.of_nat (length (jobs1 ++ jobs2)) <= max_int ->
  default 0 (countAt (aggregate cfg (jobs1 ++ jobs2)).1 k) =
  default 0 (countAt (aggregate cfg jobs1).1 k)
  + default 0 (countAt (aggregate cfg jobs2).1 k).
Proof.
  intros Hlen. rewrite length_app in Hlen.
  rewrite !countAt_aggregate by (rewrite ?length_app; lia).
  rewrite occurrences_app.
  destruct (occurrences cfg jobs1 k), (occurrences cfg jobs2 k); simpl; lia.
Qed.

Lemma counts_of_concatenation_witness :
  default 0 (countAt (aggregate sampleConfig sampleJobs).1 ("A", "ok", "prod")) =
  default 0 (countAt (aggregate sampleConfig [job "A" "ok" ["prod"]]).1
               ("A", "ok", "prod"))
  + default 0 (countAt (aggregate sampleConfig
                          [job "A" "ok" ["prod"]; job "B" "failed" ["dev"]]).1
                 ("A", "ok", "prod")).
Proof.
  apply (counts_of_concatenation sampleConfig [job "A" "ok" ["prod"]]
           [job "A" "ok" ["prod"]; job "B" "failed" ["dev"]] ("A", "ok", "prod")).
  vm_compute. discriminate.
Defined.
